(** * pretf: blocks, reference expressions, collections and the renderer

    A shallow embedding of [pretf/render.py] and [pretf/collections.py]
    together with the properties the specification states about them.

    Python values are a first-order universe [value]; a [dict] is an
    insertion-ordered association list with string keys; exceptions are
    explicit results; a generator is a state with a [send] function; the
    objects a function mutates are threaded as explicit state. *)

From Stdlib Require Import List String Ascii Bool Arith Lia ZArith.
From Stdlib Require Import Numbers.DecimalString.
Import ListNotations.
Local Open Scope list_scope.
Local Open Scope string_scope.

Set Implicit Arguments.
Set Warnings "-register-all".

(** ** Exceptions and fallible computations *)

Inductive exn : Type :=
| TypeError
| IndexError
| AttributeError (msg : string)
| OtherError (msg : string).

Inductive result (A : Type) : Type :=
| Ok (a : A)
| Raise (e : exn).

Arguments Ok {A} a.
Arguments Raise {A} e.

Definition rbind {A B} (r : result A) (k : A -> result B) : result B :=
  match r with
  | Ok a => k a
  | Raise e => Raise e
  end.

Notation "x <- c ;; k" := (rbind c (fun x => k))
  (at level 61, c at next level, right associativity).

(** ** Python strings *)

Module Str.

(** [sep in s] for a one-character [sep]. *)
Fixpoint contains (sep : ascii) (s : string) : bool :=
  match s with
  | EmptyString => false
  | String c rest => if Ascii.eqb c sep then true else contains sep rest
  end.

(** [s.split(sep)] for a one-character [sep]: never empty, the empty
    string splits into one empty segment. *)
Fixpoint split (sep : ascii) (s : string) : list string :=
  match s with
  | EmptyString => [EmptyString]
  | String c rest =>
      if Ascii.eqb c sep then EmptyString :: split sep rest
      else match split sep rest with
           | [] => [String c EmptyString]
           | seg :: segs => String c seg :: segs
           end
  end.

(** [sep.join(parts)]. *)
Fixpoint join (sep : string) (parts : list string) : string :=
  match parts with
  | [] => EmptyString
  | [p] => p
  | p :: rest => p ++ sep ++ join sep rest
  end.

(** [s.endswith(suffix)]. *)
Definition endswith (s suffix : string) : bool :=
  let n := String.length s in
  let m := String.length suffix in
  Nat.leb m n && String.eqb (substring (n - m) m s) suffix.

Definition dot : ascii := "."%char.

End Str.

(** ** Python values *)

Inductive value : Type :=
| VNone
| VBool (b : bool)
| VInt (z : Z)
| VStr (s : string)
| VList (items : list value)
| VDict (d : list (string * value))
| VBlock (path : string) (body : list (string * value))
| VInterp (v : string)
| VColl (blocks : list value) (outputs : list (string * value)).

(** A [dict] with string keys, in insertion order. *)
Definition dict : Type := list (string * value).

Module Dict.
Section Ops.
Variable V : Type.

(** [d.get(k)] / [d[k]]. *)
Fixpoint get (k : string) (d : list (string * V)) : option V :=
  match d with
  | [] => None
  | (k', v) :: rest => if String.eqb k k' then Some v else get k rest
  end.

(** [d[k] = v]: an existing key keeps its position. *)
Fixpoint set (k : string) (v : V) (d : list (string * V))
  : list (string * V) :=
  match d with
  | [] => [(k, v)]
  | (k', v') :: rest =>
      if String.eqb k k' then (k', v) :: rest
      else (k', v') :: set k v rest
  end.

(** [d.update(other)]: the items of [other] assigned in order. *)
Definition update (d other : list (string * V)) : list (string * V) :=
  fold_left (fun acc kv => set (fst kv) (snd kv) acc) other d.

Definition keys (d : list (string * V)) : list string := map fst d.

(** The invariant of a Python dict: no key occurs twice. *)
Definition wf (d : list (string * V)) : Prop := NoDup (keys d).
End Ops.
End Dict.

(** [bool(v)]: neither [Block], [Interpolated] nor [Collection] defines
    [__bool__] or [__len__], so their instances are true. *)
Definition truthy (v : value) : bool :=
  match v with
  | VNone => false
  | VBool b => b
  | VInt z => negb (Z.eqb z 0)
  | VStr s => negb (String.eqb s "")
  | VList l => match l with [] => false | _ => true end
  | VDict d => match d with [] => false | _ => true end
  | VBlock _ _ | VInterp _ | VColl _ _ => true
  end.

(** [str(v)] as an f-string formats it.  [Block.__str__] is the path and
    [Interpolated.__str__] wraps the value; the [repr]-based forms of
    lists, dicts and collections are not modelled ([None]). *)
Definition py_str (v : value) : option string :=
  match v with
  | VNone => Some "None"
  | VBool true => Some "True"
  | VBool false => Some "False"
  | VInt z => Some (NilZero.string_of_int (Z.to_int z))
  | VStr s => Some s
  | VBlock path _ => Some path
  | VInterp s => Some ("${" ++ s ++ "}")
  | VList _ | VDict _ | VColl _ _ => None
  end.

(** ** Local dict objects of [Block.__iter__]

    [Block.__iter__] builds its result by mutating dicts through the alias
    [here].  The dicts it creates live in a small heap: an object is a dict
    whose entries are values or references to other objects. *)

Module Heap.

Inductive cell : Type :=
| CVal (v : value)
| CRef (a : nat).

Definition obj : Type := list (string * cell).
Definition heap : Type := list obj.

Definition obind {A B} (o : option A) (k : A -> option B) : option B :=
  match o with
  | Some a => k a
  | None => None
  end.

(** [{}]: a new empty dict. *)
Definition alloc (h : heap) : heap * nat := ((h ++ [[]])%list, List.length h).

(** [h[a][k] = c]. *)
Definition setitem (h : heap) (a : nat) (k : string) (c : cell)
  : option heap :=
  match nth_error h a with
  | Some o => Some (firstn a h ++ Dict.set k c o :: skipn (S a) h)%list
  | None => None
  end.

(** [h[a][k]]. *)
Definition getitem (h : heap) (a : nat) (k : string) : option cell :=
  obind (nth_error h a) (Dict.get k).

(** [h[a].update(d)]. *)
Fixpoint update (h : heap) (a : nat) (d : dict) : option heap :=
  match d with
  | [] => Some h
  | (k, v) :: rest => obind (setitem h a k (CVal v)) (fun h' => update h' a rest)
  end.

(** The items of an object, with [deref] giving the value behind a
    reference. *)
Fixpoint reify_items (deref : nat -> option dict) (o : obj) : option dict :=
  match o with
  | [] => Some []
  | (k, CVal v) :: rest =>
      obind (reify_items deref rest) (fun r => Some ((k, v) :: r))
  | (k, CRef a) :: rest =>
      obind (deref a) (fun d =>
      obind (reify_items deref rest) (fun r => Some ((k, VDict d) :: r)))
  end.

(** The value of the object at [a], references followed. *)
Fixpoint reify (fuel : nat) (h : heap) (a : nat) : option dict :=
  match fuel with
  | 0 => None
  | S f => obind (nth_error h a) (reify_items (reify f h))
  end.

(** A dict of values as an object. *)
Definition of_dict (d : dict) : obj :=
  map (fun kv => (fst kv, CVal (snd kv))) d.

(** A chain of one-entry objects from address [base] on, each holding a
    reference to the next address under the name of its segment. *)
Fixpoint links (base : nat) (parts : list string) : heap :=
  match parts with
  | [] => []
  | p :: rest => [(p, CRef (S base))] :: links (S base) rest
  end.

End Heap.

(** ** [class Block] *)

(** [Block(path, body=None)]: [self.__body = body or {}]. *)
Definition Block (path : string) (body : option dict) : value :=
  VBlock path (match body with Some d => d | None => [] end).

(** The loop [for part in path.split("."): here[part] = {}; here = here[part]]. *)
Fixpoint Block_iter_parts (parts : list string) (h : Heap.heap) (here : nat)
  : option (Heap.heap * nat) :=
  match parts with
  | [] => Some (h, here)
  | part :: rest =>
      let '(h1, fresh) := Heap.alloc h in
      Heap.obind (Heap.setitem h1 here part (Heap.CRef fresh)) (fun h2 =>
      Heap.obind (Heap.getitem h2 here part) (fun c =>
      match c with
      | Heap.CRef a => Block_iter_parts rest h2 a
      | Heap.CVal _ => None
      end))
  end.

(** [Block.__iter__]: the items of [result], in order. *)
Definition Block_iter (path : string) (body : dict)
  : option (list (string * value)) :=
  let '(h0, result) := Heap.alloc [] in
  Heap.obind
    (if Str.contains Str.dot path then
       Heap.obind (Block_iter_parts (Str.split Str.dot path) h0 result)
         (fun '(h1, here) => Heap.update h1 here body)
     else Heap.setitem h0 result path (Heap.CVal (VDict body)))
    (fun h => Heap.reify (List.length h) h result).

(** [Block.__getattr__] (also [__getitem__]). *)
Definition Block_getattr (path : string) (body : dict) (name : string)
  : result value :=
  match Str.split Str.dot path with
  | [] => Raise IndexError
  | p0 :: rest =>
      if String.eqb p0 "resource" then
        Ok (VInterp (Str.join "." (rest ++ [name])))
      else if String.eqb p0 "variable" then
        Ok (VInterp (Str.join "." ("var" :: rest ++ [name])))
      else if String.eqb p0 "provider" then
        let alias :=
          match Dict.get "alias" body with Some a => a | None => VNone end in
        if truthy alias then
          match rest with
          | [] => Raise IndexError
          | p1 :: _ =>
              match py_str alias with
              | Some a => Ok (VStr (p1 ++ "." ++ a))
              | None => Raise (OtherError "str of a container")
              end
          end
        else
          match rest with
          | [] => Raise IndexError
          | p1 :: _ => Ok (VStr p1)
          end
      else Ok (VInterp (Str.join "." (p0 :: rest ++ [name])))
  end.

(** ** [class Interpolated] *)

(** [Interpolated.__str__]. *)
Definition Interpolated_str (v : string) : string := "${" ++ v ++ "}".

(** [Interpolated.__getattr__]. *)
Definition Interpolated_getattr (v attr : string) : value :=
  VInterp (v ++ "." ++ attr).

(** [Interpolated.__eq__]: [str(self) == other].  A string equals only a
    string; against another [Interpolated] Python falls back to the
    reflected [__eq__], which compares the two textual forms. *)
Definition Interpolated_eq (v : string) (other : value) : bool :=
  match other with
  | VStr s => String.eqb (Interpolated_str v) s
  | VInterp w => String.eqb (Interpolated_str w) (Interpolated_str v)
  | _ => false
  end.

(** The canonical textual form of the result of an attribute access: the
    string itself for a [str], [Interpolated.__str__] for a reference. *)
Definition textual_form (v : value) : option string := py_str v.

(** Is the value a Reference Expression (an [Interpolated])? *)
Definition is_reference (v : value) : bool :=
  match v with
  | VInterp _ => true
  | _ => false
  end.

(** ** [class Collection] *)

(** One item of [Collection.__iter__]: a nested [Collection] is iterated in
    place ([yield from block]), anything else is yielded. *)
Fixpoint Collection_iter_block (block : value) : list value :=
  match block with
  | VColl blocks _ => flat_map Collection_iter_block blocks
  | _ => [block]
  end.

(** [Collection.__iter__]. *)
Definition Collection_iter (blocks : list value) : list value :=
  flat_map Collection_iter_block blocks.

(** [name in d]. *)
Definition dict_contains (name : string) (d : dict) : bool :=
  existsb (String.eqb name) (Dict.keys d).

(** [Collection.__getattr__]. *)
Definition Collection_getattr (outputs : dict) (name : string) : result value :=
  if dict_contains name outputs then
    match Dict.get name outputs with
    | Some v => Ok v
    | None => Raise (OtherError "KeyError")
    end
  else Raise (AttributeError ("output not defined: " ++ name)).

(** ** [unwrap_yielded] *)

(** The items of [iter(v)] for a value that is neither a [Block] nor a
    [dict]: a list gives its items, a [Collection] what its [__iter__]
    yields, a string its characters; nothing else is iterable. *)
Definition py_iter (v : value) : result (list value) :=
  match v with
  | VList items => Ok items
  | VColl blocks _ => Ok (Collection_iter blocks)
  | VStr s => Ok (map (fun c => VStr (String c EmptyString)) (list_ascii_of_string s))
  | VDict d => Ok (map VStr (Dict.keys d))
  | VBlock path body =>
      match Block_iter path body with
      | Some items => Ok (map (fun kv => VList [VStr (fst kv); snd kv]) items)
      | None => Raise (OtherError "unreachable")
      end
  | VNone | VBool _ | VInt _ | VInterp _ => Raise TypeError
  end.

Definition unwrap_yielded (yielded : value) : result (list value) :=
  match yielded with
  | VBlock path body =>
      (* dict(iter(yielded)) *)
      match Block_iter path body with
      | Some items => Ok [VDict items]
      | None => Raise (OtherError "unreachable")
      end
  | VDict _ => Ok [yielded]
  | _ => py_iter yielded
  end.

(** ** State and exceptions

    Code that mutates objects and may raise: a computation takes the state
    and either returns a value or throws, in both cases with the state it
    left behind. *)

Inductive outcome (S A : Type) : Type :=
| Return (a : A) (s : S)
| Throw (e : exn) (s : S).

Arguments Return {S A} a s.
Arguments Throw {S A} e s.

Definition M (S A : Type) : Type := S -> outcome S A.

Definition ret {S A} (a : A) : M S A := fun s => Return a s.

Definition throw {S A} (e : exn) : M S A := fun s => Throw e s.

Definition bind {S A B} (m : M S A) (k : A -> M S B) : M S B :=
  fun s =>
    match m s with
    | Return a s' => k a s'
    | Throw e s' => Throw e s'
    end.

Definition get_state {S} : M S S := fun s => Return s s.

Definition put_state {S} (s : S) : M S unit := fun _ => Return tt s.

Definition modify {S} (f : S -> S) : M S unit := fun s => Return tt (f s).

(** A fallible pure step. *)
Definition lift_result {S A} (r : result A) : M S A :=
  match r with
  | Ok a => ret a
  | Raise e => throw e
  end.

Declare Scope monad_scope.
Delimit Scope monad_scope with monad.
Notation "x <~ c ; k" := (bind c (fun x => k))
  (at level 61, c at next level, right associativity) : monad_scope.

(** [for x in xs: body(x)]. *)
Fixpoint for_each {S A} (xs : list A) (body : A -> M S unit) : M S unit :=
  match xs with
  | [] => ret tt
  | x :: rest => bind (body x) (fun _ => for_each rest body)
  end.

(** What a generator without inputs does when it is drained: the items it
    yields, then possibly an exception instead of a normal end. *)
Definition drained (A : Type) : Type := (list A * option exn)%type.

(** [for x in gen: body(x)] over a drained generator. *)
Definition for_drained {S A} (xs : drained A) (body : A -> M S unit)
  : M S unit :=
  bind (for_each (fst xs) body) (fun _ =>
    match snd xs with
    | Some e => throw e
    | None => ret tt
    end).

(** ** Generators

    A producer is a generator: [send] resumes the state [g] with a value and
    the world [w] it can reach (the variable store behind its proxy, and for
    a render job the renderer that a variable read may re-enter); it yields,
    stops ([StopIteration]) or raises, and leaves a new world behind. *)

Inductive sent (G W : Type) : Type :=
| Yielded (y : value) (g : G) (w : W)
| Stopped (g : G) (w : W)
| Raised (e : exn) (g : G) (w : W).

Arguments Yielded {G W} y g w.
Arguments Stopped {G W} g w.
Arguments Raised {G W} e g w.

(** ** External collaborators

    [pretf/variables.py] and [pretf/parser.py] are used by the code below
    but are not part of it; their classes and functions are parameters. *)

Class Externals : Type := {
  (** [VariableValue] and variable definition objects; plain objects, so
      every instance is true. *)
  variable : Type;
  (** [VariableStore] / [TerraformVariableStore]. *)
  store : Type;
  (** [VariableStore()]. *)
  VariableStore_new : store;
  (** [VariableValue(name=, value=, source=)]. *)
  VariableValue : string -> value -> string -> variable;
  (** [store.add(var, allow_change)]. *)
  store_add : store -> variable -> bool -> result store;
  (** [name in store]. *)
  store_contains : store -> string -> bool;
  (** [store.tfvars_waiting_for(name)]. *)
  tfvars_waiting_for : store -> string -> bool;
  (** [store.file_created(name)]. *)
  file_created : store -> string -> result store;
  (** [get_variables_from_block(block, source)], drained. *)
  get_variables_from_block : value -> string -> drained variable;
  (** [get_outputs_from_block(block)], drained; each output is a dict with
      the keys [name] and [value], given here as a pair. *)
  get_outputs_from_block : value -> drained (string * value)
}.

(** ** [collect] *)

Module Collecting.
(** The objects the driver loop of [wrapped] mutates. *)
Record t {E : Externals} : Type := Make {
  var_store : store;
  blocks : list value;
  outputs : dict
}.
Arguments Make {E}.
End Collecting.

Section Collect.
Context {E : Externals}.

(** The generator [func(var_proxy)]: its world is the collection's own
    variable store, which it reads through the proxy. *)
Variable G : Type.
Variable send : G -> value -> store -> sent G store.

Definition collecting : Type := Collecting.t.

Definition set_var_store (st : store) (c : collecting) : collecting :=
  Collecting.Make st (Collecting.blocks c) (Collecting.outputs c).

Definition set_outputs (o : dict) (c : collecting) : collecting :=
  Collecting.Make (Collecting.var_store c) (Collecting.blocks c) o.

Definition append_block (b : value) (c : collecting) : collecting :=
  Collecting.Make (Collecting.var_store c) (Collecting.blocks c ++ [b])
    (Collecting.outputs c).

(** [var_store.add(var)]. *)
Definition collect_add (var : variable) : M collecting unit :=
  (c <~ get_state ;
   st <~ lift_result (store_add (Collecting.var_store c) var true) ;
   put_state (set_var_store st c))%monad.

(** The body of [for block in unwrap_yielded(yielded)]. *)
Definition collect_block (func_name : string) (block : value)
  : M collecting unit :=
  let vars := get_variables_from_block block func_name in
  let outs := get_outputs_from_block block in
  (_ <~ for_drained vars collect_add ;
   _ <~ for_drained outs
          (fun output =>
             modify (fun c =>
               set_outputs
                 (Dict.set (fst output) (snd output) (Collecting.outputs c)) c)) ;
   (* [if not var and not output]: the last item of each loop, if any *)
   match fst vars, fst outs with
   | [], [] => modify (append_block block)
   | _, _ => ret tt
   end)%monad.

(** One round of [while True]: resume the generator with [yielded]. *)
Fixpoint collect_loop (fuel : nat) (func_name : string) (g : G)
  (yielded : value) (c : collecting) : option (outcome (G * collecting) unit) :=
  match fuel with
  | 0 => None
  | S fuel' =>
      match send g yielded (Collecting.var_store c) with
      | Stopped g' st => Some (Return tt (g', set_var_store st c))
      | Raised e g' st => Some (Throw e (g', set_var_store st c))
      | Yielded y g' st =>
          match
            (bs <~ lift_result (unwrap_yielded y) ;
             for_each bs (collect_block func_name))%monad
              (set_var_store st c)
          with
          | Throw e c' => Some (Throw e (g', c'))
          | Return _ c' => collect_loop fuel' func_name g' y c'
          end
      end
  end.

(** Loading [kwargs] into the fresh store. *)
Definition load_kwargs (kwargs : dict) : M store unit :=
  for_each kwargs
    (fun kv =>
       (st <~ get_state ;
        st' <~ lift_result
                 (store_add st (VariableValue (fst kv) (snd kv) "kwargs") true) ;
        put_state st')%monad).

(** The factory [wrapped] that [collect(func)] returns, called with the
    keyword arguments [kwargs]; [None] when [fuel] rounds do not exhaust
    the generator. *)
Definition collect (fuel : nat) (func_name : string) (gen : G)
  (kwargs : dict) : option (result value) :=
  match load_kwargs kwargs VariableStore_new with
  | Throw e _ => Some (Raise e)
  | Return _ st =>
      match collect_loop fuel func_name gen VNone (Collecting.Make st [] []) with
      | None => None
      | Some (Throw e _) => Some (Raise e)
      | Some (Return _ (_, c)) =>
          Some (Ok (VColl (Collecting.blocks c) (Collecting.outputs c)))
      end
  end.

End Collect.

(** ** [class RenderJob] and [class Renderer] *)

Module RenderJob.
(** The fields of a job.  [path] is the [name] of the source path,
    [output_path] the source path with the suffix [.json] and
    [output_name] its [name]; [gen] is the started generator. *)
Record t (G : Type) : Type := Make {
  path : string;
  gen : G;
  done : bool;
  output_path : string;
  output_name : string;
  return_value : value;
  blocks : list value
}.
Arguments Make {G}.
End RenderJob.

Module Renderer.
(** The renderer: the shared variable store, the pending jobs (a stack,
    top at the end of the list) and the completed jobs. *)
Record t (St G : Type) : Type := Make {
  variables : St;
  jobs : list (RenderJob.t G);
  done : list (RenderJob.t G)
}.
Arguments Make {St G}.
End Renderer.

(** [block.items()]: only a dict has it.  On a [Block], an [Interpolated]
    or a [Collection] the name goes through [__getattr__] and the result,
    if there is one, is not callable. *)
Definition value_items (block : value) : result dict :=
  match block with
  | VDict d => Ok d
  | VBlock path body =>
      _ <- Block_getattr path body "items" ;; Raise TypeError
  | VColl _ outs =>
      _ <- Collection_getattr outs "items" ;; Raise TypeError
  | VInterp _ => Raise TypeError
  | VNone | VBool _ | VInt _ | VStr _ | VList _ =>
      Raise (AttributeError "items")
  end.

Section Render.
Context {E : Externals}.

Variable G : Type.

Definition job : Type := RenderJob.t G.
Definition renderer : Type := Renderer.t store G.

(** Resuming a job's generator: the world is the renderer with the job
    popped, since reading a variable through the proxy may call
    [process_jobs] again. *)
Variable send : G -> value -> renderer -> sent G renderer.

(** [RenderJob.__init__], with the generator already started. *)
Definition RenderJob_init (path output_path output_name : string) (g : G)
  : job :=
  RenderJob.Make path g false output_path output_name VNone [].

(** The state of [run]: the job and the renderer it belongs to. *)
Definition running : Type := (job * renderer)%type.

Definition set_variables (st : store) (w : renderer) : renderer :=
  Renderer.Make st (Renderer.jobs w) (Renderer.done w).

Definition set_gen (g : G) (j : job) : job :=
  RenderJob.Make (RenderJob.path j) g (RenderJob.done j)
    (RenderJob.output_path j) (RenderJob.output_name j)
    (RenderJob.return_value j) (RenderJob.blocks j).

Definition set_return_value (v : value) (j : job) : job :=
  RenderJob.Make (RenderJob.path j) (RenderJob.gen j) (RenderJob.done j)
    (RenderJob.output_path j) (RenderJob.output_name j)
    v (RenderJob.blocks j).

Definition append_job_block (b : value) (j : job) : job :=
  RenderJob.Make (RenderJob.path j) (RenderJob.gen j) (RenderJob.done j)
    (RenderJob.output_path j) (RenderJob.output_name j)
    (RenderJob.return_value j) (RenderJob.blocks j ++ [b]).

(** [self.variables.add(var, allow_change)]. *)
Definition variables_add (var : variable) (allow_change : bool)
  : M running unit :=
  (jw <~ get_state ;
   st <~ lift_result (store_add (Renderer.variables (snd jw)) var allow_change) ;
   put_state (fst jw, set_variables st (snd jw)))%monad.

(** [RenderJob.contents]. *)
Definition RenderJob_contents (j : job) : result value :=
  if Str.endswith (RenderJob.output_name j) ".tfvars.json" then
    merged <-
      fold_left
        (fun acc block =>
           merged <- acc ;;
           items <- value_items block ;;
           Ok (fold_left (fun m kv => Dict.set (fst kv) (snd kv) m) items merged))
        (RenderJob.blocks j) (Ok []) ;;
    Ok (VDict merged)
  else Ok (VList (RenderJob.blocks j)).

(** [RenderJob.process_tf_block]. *)
Definition process_tf_block (block : value) : M running unit :=
  (jw <~ get_state ;
   for_drained (get_variables_from_block block (RenderJob.path (fst jw)))
     (fun var => variables_add var true))%monad.

(** [RenderJob.process_tfvars_block]. *)
Definition process_tfvars_block (block : value) : M running unit :=
  (jw <~ get_state ;
   if tfvars_waiting_for (Renderer.variables (snd jw))
        (RenderJob.output_name (fst jw))
   then
     items <~ lift_result (value_items block) ;
     for_each items
       (fun kv =>
          variables_add
            (VariableValue (fst kv) (snd kv) (RenderJob.path (fst jw))) false)
   else ret tt)%monad.

(** The body of [for block in unwrap_yielded(yielded)] in [run]. *)
Definition run_block (block : value) : M running unit :=
  (jw <~ get_state ;
   _ <~ (if Str.endswith (RenderJob.output_name (fst jw)) ".tfvars.json"
         then process_tfvars_block block
         else process_tf_block block) ;
   modify (fun jw' => (append_job_block block (fst jw'), snd jw')))%monad.

(** [RenderJob.run]. *)
Definition RenderJob_run : M running bool :=
  fun jw =>
    let j := fst jw in
    match send (RenderJob.gen j) (RenderJob.return_value j) (snd jw) with
    | Raised e g w => Throw e (set_gen g j, w)
    | Stopped g w =>
        (* except StopIteration *)
        match file_created (Renderer.variables w) (RenderJob.output_name j) with
        | Ok st => Return true (set_gen g j, set_variables st w)
        | Raise e => Throw e (set_gen g j, w)
        end
    | Yielded yielded g w =>
        (_ <~ put_state (set_return_value yielded (set_gen g j), w) ;
         bs <~ lift_result (unwrap_yielded yielded) ;
         _ <~ for_each bs run_block ;
         ret false)%monad jw
    end.

(** [self.jobs.pop()]: the last job of the list and the rest. *)
Definition pop (js : list job) : option (job * list job) :=
  match rev js with
  | [] => None
  | j :: front => Some (j, rev front)
  end.

(** [if until and until in self.variables]. *)
Definition until_reached (until : option string) (w : renderer) : bool :=
  match until with
  | None => false
  | Some name =>
      negb (String.eqb name "") && store_contains (Renderer.variables w) name
  end.

(** [Renderer.process_jobs]; [None] when [fuel] iterations of the loop
    were not enough. *)
Fixpoint process_jobs (fuel : nat) (until : option string) (w : renderer)
  : option (outcome renderer unit) :=
  match fuel with
  | 0 => None
  | S fuel' =>
      match pop (Renderer.jobs w) with
      | None => Some (Return tt w)
      | Some (j, rest) =>
          if until_reached until w then Some (Return tt w)
          else
            match
              RenderJob_run
                (j, Renderer.Make (Renderer.variables w) rest (Renderer.done w))
            with
            | Throw e (_, w') => Some (Throw e w')
            | Return true (j', w') =>
                process_jobs fuel' until
                  (Renderer.Make (Renderer.variables w') (Renderer.jobs w')
                     (Renderer.done w' ++ [j']))
            | Return false (j', w') =>
                process_jobs fuel' until
                  (Renderer.Make (Renderer.variables w')
                     (Renderer.jobs w' ++ [j']) (Renderer.done w'))
            end
      end
  end.

(** The loop of [render] over the completed jobs:
    [results[job.output_path] = job.contents()]. *)
Definition render_results (js : list job) : result dict :=
  fold_left
    (fun acc j =>
       results <- acc ;;
       contents <- RenderJob_contents j ;;
       Ok (Dict.set (RenderJob.output_path j) contents results))
    js (Ok []).

(** [Renderer.render]: the results keyed by output path. *)
Definition render (fuel : nat) (w : renderer)
  : option (outcome renderer dict) :=
  match process_jobs fuel None w with
  | None => None
  | Some (Throw e w') => Some (Throw e w')
  | Some (Return _ w') =>
      match render_results (Renderer.done w') with
      | Ok results => Some (Return results w')
      | Raise e => Some (Throw e w')
      end
  end.

End Render.

(** ** Definitions used to state the properties *)

(** The mapping [{s1: {s2: ... {sn: body}}}] of a list of segments. *)
Definition nested_mapping (segments : list string) (body : dict) : value :=
  fold_right (fun s inner => VDict [(s, inner)]) (VDict body) segments.

(** Following the segments down through mappings of one key each. *)
Fixpoint descend (segments : list string) (v : value) : option value :=
  match segments with
  | [] => Some v
  | s :: rest =>
      match v with
      | VDict [(k, inner)] =>
          if String.eqb k s then descend rest inner else None
      | _ => None
      end
  end.

(** [dict] built from a list of items: what [{}.update(body)] holds. *)
Definition dict_of_items (body : dict) : dict := Dict.update [] body.

(** [f] over the items of a list, the results concatenated, the first
    error raised. *)
Definition flat_map_result {A B : Type} (f : A -> result (list B))
  : list A -> result (list B) :=
  fix each (l : list A) : result (list B) :=
    match l with
    | [] => Ok []
    | x :: rest =>
        a <- f x ;;
        b <- each rest ;;
        Ok (a ++ b)%list
    end.

(** Unwrapping as the specification words it: a [Block] gives its
    flattened mapping, a mapping itself, and the items of anything else
    are unwrapped in turn, recursively. *)
Fixpoint unwrap_recursive (v : value) : result (list value) :=
  match v with
  | VBlock path body => Ok [nested_mapping (Str.split Str.dot path) body]
  | VDict _ => Ok [v]
  | VList items | VColl items _ => flat_map_result unwrap_recursive items
  | VNone | VBool _ | VInt _ | VStr _ | VInterp _ => Raise TypeError
  end.

Definition is_dict (v : value) : bool :=
  match v with
  | VDict _ => true
  | _ => false
  end.

Definition is_collection (v : value) : bool :=
  match v with
  | VColl _ _ => true
  | _ => false
  end.

(** What the specification says of a [provider] block with an alias: the
    access gives a Reference Expression whose textual form is the
    interpolation of [type.alias]. *)
Definition provider_reference_claim (path : string) (body : dict)
  (name text : string) : Prop :=
  exists r, Block_getattr path body name = Ok r
            /\ is_reference r = true
            /\ textual_form r = Some text.

(** Induction on values through the lists and dicts they contain. *)
Section ValueInduction.
Variable P : value -> Prop.
Hypothesis HNone : P VNone.
Hypothesis HBool : forall b, P (VBool b).
Hypothesis HInt : forall z, P (VInt z).
Hypothesis HStr : forall s, P (VStr s).
Hypothesis HList : forall items, Forall P items -> P (VList items).
Hypothesis HDict :
  forall d, Forall (fun kv => P (snd kv)) d -> P (VDict d).
Hypothesis HBlock :
  forall path body, Forall (fun kv => P (snd kv)) body -> P (VBlock path body).
Hypothesis HInterp : forall s, P (VInterp s).
Hypothesis HColl :
  forall blocks outs,
    Forall P blocks -> Forall (fun kv => P (snd kv)) outs ->
    P (VColl blocks outs).

Fixpoint value_nested_ind (v : value) : P v :=
  let all :=
    fix all (l : list value) : Forall P l :=
      match l with
      | [] => Forall_nil _
      | x :: r => Forall_cons x (value_nested_ind x) (all r)
      end in
  let all_snd :=
    fix all_snd (d : list (string * value))
      : Forall (fun kv => P (snd kv)) d :=
      match d with
      | [] => Forall_nil _
      | (k, x) :: r =>
          @Forall_cons _ (fun kv => P (snd kv)) (k, x) r
            (value_nested_ind x) (all_snd r)
      end in
  match v with
  | VNone => HNone
  | VBool b => HBool b
  | VInt z => HInt z
  | VStr s => HStr s
  | VList items => HList (all items)
  | VDict d => HDict (all_snd d)
  | VBlock path body => HBlock path (all_snd body)
  | VInterp s => HInterp s
  | VColl blocks outs => HColl (all blocks) (all_snd outs)
  end.
End ValueInduction.

(** What the specification says of [unwrap_yielded]: it agrees with the
    recursive unwrapping. *)
Definition unwrap_recursive_claim (v : value) : Prop :=
  unwrap_yielded v = unwrap_recursive v.

(** [for name, value in block.items(): merged[name] = value]. *)
Definition assign_items (m d : dict) : dict :=
  fold_left (fun acc kv => Dict.set (fst kv) (snd kv) acc) d m.

(** Merging mappings in order, a later one overriding an earlier one:
    the value of a key is the one of the last mapping that has it. *)
Definition merge_later_wins (ds : list dict) (k : string) : option value :=
  fold_left
    (fun found d => match Dict.get k d with Some v => Some v | None => found end)
    ds None.

Section Classification.
Context {E : Externals}.

(** [store.add] over a list of variables, in order. *)
Definition add_all (allow_change : bool) (vars : list variable) (st : store)
  : result store :=
  fold_left (fun acc var => st' <- acc ;; store_add st' var allow_change)
    vars (Ok st).

(** What one block does to the store, as the specification words the two
    modes of a render job: a variable-value file feeds the items of the
    block to the store if the store waits for the file, any other file
    registers the variables the block defines. *)
Definition classify_block (path output_name : string) (block : value)
  (st : store) : result store :=
  if Str.endswith output_name ".tfvars.json" then
    if tfvars_waiting_for st output_name then
      items <- value_items block ;;
      add_all false
        (map (fun kv => VariableValue (fst kv) (snd kv) path) items) st
    else Ok st
  else
    st' <- add_all true (fst (get_variables_from_block block path)) st ;;
    match snd (get_variables_from_block block path) with
    | Some e => Raise e
    | None => Ok st'
    end.

Definition classify_blocks (path output_name : string) (bs : list value)
  (st : store) : result store :=
  fold_left (fun acc b => st' <- acc ;; classify_block path output_name b st')
    bs (Ok st).

End Classification.

(** The blocks a list of yielded values unwraps to, in order. *)
Definition unwrapped (ys : list value) : list value :=
  flat_map
    (fun y => match unwrap_yielded y with Ok bs => bs | Raise _ => [] end) ys.








(** ** Observing a generator

    The same generator with a log of the values it was sent and of the
    values it yielded. *)
Section Logged.
Variables G W : Type.
Variable send : G -> value -> W -> sent G W.

Record logged : Type := Logged {
  inner : G;
  sent_log : list value;
  yielded_log : list value
}.

Definition send_logged (g : logged) (v : value) (w : W) : sent logged W :=
  match send (inner g) v w with
  | Yielded y g' w' =>
      Yielded y (Logged g' (sent_log g ++ [v]) (yielded_log g ++ [y])) w'
  | Stopped g' w' =>
      Stopped (Logged g' (sent_log g ++ [v]) (yielded_log g)) w'
  | Raised e g' w' =>
      Raised e (Logged g' (sent_log g ++ [v]) (yielded_log g)) w'
  end.

(** A fresh generator has been sent nothing and has yielded nothing. *)
Definition start_logged (g : G) : logged := Logged g [] [].
End Logged.

(** A generator that yields the values of a list one after the other,
    whatever it is sent. *)
Definition send_script {W : Type} (g : list value) (v : value) (w : W)
  : sent (list value) W :=
  match g with
  | [] => Stopped [] w
  | y :: rest => Yielded y rest w
  end.

(** ** A reference instance of the collaborators *)

Module Reference.

(** Structural equality of values. *)
Fixpoint value_eqb (a b : value) : bool :=
  let list_eqb :=
    fix list_eqb (l1 l2 : list value) : bool :=
      match l1, l2 with
      | [], [] => true
      | x :: r1, y :: r2 => value_eqb x y && list_eqb r1 r2
      | _, _ => false
      end in
  let dict_eqb :=
    fix dict_eqb (d1 d2 : list (string * value)) : bool :=
      match d1, d2 with
      | [], [] => true
      | (k1, x) :: r1, (k2, y) :: r2 =>
          String.eqb k1 k2 && value_eqb x y && dict_eqb r1 r2
      | _, _ => false
      end in
  match a, b with
  | VNone, VNone => true
  | VBool x, VBool y => Bool.eqb x y
  | VInt x, VInt y => Z.eqb x y
  | VStr x, VStr y => String.eqb x y
  | VList l1, VList l2 => list_eqb l1 l2
  | VDict d1, VDict d2 => dict_eqb d1 d2
  | VBlock p1 b1, VBlock p2 b2 => String.eqb p1 p2 && dict_eqb b1 b2
  | VInterp x, VInterp y => String.eqb x y
  | VColl b1 o1, VColl b2 o2 => list_eqb b1 b2 && dict_eqb o1 o2
  | _, _ => false
  end.

(** Modelled from the spec: the classes of [pretf/variables.py] are not
    part of the code at hand.  A Variable Value is [(name, value,
    source)]; a variable definition is the same without a value, or with
    its default as the value. *)
Record variable : Type := MkVariable {
  name : string;
  value_of : option value;
  source : string
}.

(** Modelled from the spec: the variable store of [pretf/variables.py],
    as far as its contract goes: the values by name, and the
    variable-value files whose contents are waited for. *)
Record store : Type := MkStore {
  values : dict;
  waiting : list string
}.

(** Modelled from the spec: [add] of the store, missing from the code at
    hand.  Registering a definition without a value makes no value
    available; a different value for a name that has one is an error
    when changes are not allowed. *)
Definition add (st : store) (var : variable) (allow_change : bool)
  : result store :=
  match value_of var with
  | None => Ok st
  | Some v =>
      match Dict.get (name var) (values st) with
      | Some old =>
          if value_eqb old v then Ok st
          else if allow_change
               then Ok (MkStore (Dict.set (name var) v (values st)) (waiting st))
               else Raise (OtherError "conflicting variable value")
      | None => Ok (MkStore (Dict.set (name var) v (values st)) (waiting st))
      end
  end.

(** Modelled from the spec: [file_created] of the store, missing from
    the code at hand: the file's production has finished, the waits
    pinned on it are released. *)
Definition created (st : store) (file : string) : result store :=
  Ok (MkStore (values st)
        (filter (fun f => negb (String.eqb f file)) (waiting st))).

(** Modelled from the spec: [get_variables_from_block], missing from the
    code at hand: a block whose top-level key is [variable] defines one
    variable per name under it, with its default if it has one. *)
Definition variables_from_block (block : value) (src : string)
  : drained variable :=
  match block with
  | VDict d =>
      match Dict.get "variable" d with
      | Some (VDict vars) =>
          (map (fun kv =>
                  MkVariable (fst kv)
                    match snd kv with
                    | VDict body => Dict.get "default" body
                    | _ => None
                    end src) vars, None)
      | _ => ([], None)
      end
  | _ => ([], None)
  end.

(** Modelled from the spec: [get_outputs_from_block] of
    [pretf/parser.py], missing from the code at hand: a block whose
    top-level key is [output] gives the name and the [value] of each
    output under it. *)
Fixpoint outputs_of (outs : list (string * value)) : drained (string * value) :=
  match outs with
  | [] => ([], None)
  | (n, VDict body) :: rest =>
      match Dict.get "value" body with
      | Some v => ((n, v) :: fst (outputs_of rest), snd (outputs_of rest))
      | None => ([], Some (OtherError "KeyError"))
      end
  | _ :: _ => ([], Some TypeError)
  end.

Definition outputs_from_block (block : value) : drained (string * value) :=
  match block with
  | VDict d =>
      match Dict.get "output" d with
      | Some (VDict outs) => outputs_of outs
      | _ => ([], None)
      end
  | _ => ([], None)
  end.

#[export] Instance externals : Externals := {
  variable := variable;
  store := store;
  VariableStore_new := MkStore [] [];
  VariableValue := fun n v src => MkVariable n (Some v) src;
  store_add := add;
  store_contains := fun st n => dict_contains n (values st);
  tfvars_waiting_for := fun st f => existsb (String.eqb f) (waiting st);
  file_created := created;
  get_variables_from_block := variables_from_block;
  get_outputs_from_block := outputs_from_block
}.

End Reference.

(** ** Small producers to run the model on *)

Module Demo.

Definition E : Externals := Reference.externals.

(** A renderer over scripted generators. *)
Definition world : Type := @renderer E (list value).

Definition empty_store : @store E := Reference.MkStore [] [].

(** A definition file that yields a variable with a default, then a
    resource. *)
Definition iam_blocks : list value :=
  [Block "variable.path" (Some [("default", VStr "/")]);
   Block "resource.aws_iam_user.peanut" (Some [("name", VStr "peanut")])].

Definition iam_job : job (list value) :=
  RenderJob_init "iam.tf.py" "iam.tf.json" "iam.tf.json" iam_blocks.

(** A job whose generator has nothing left to yield. *)
Definition finished_job : job (list value) :=
  RenderJob_init "empty.tf.py" "empty.tf.json" "empty.tf.json" [].

(** A variable-value file that the store waits for. *)
Definition tfvars_job : job (list value) :=
  RenderJob_init "x.tfvars.py" "x.tfvars.json" "x.tfvars.json"
    [VDict [("region", VStr "eu")]].

Definition world_of (js : list (job (list value))) : world :=
  Renderer.Make empty_store js [].

(** A renderer whose store already holds the variable [path]. *)
Definition populated_world (js : list (job (list value))) : world :=
  Renderer.Make (Reference.MkStore [("path", VStr "/")] [] : @store E) js [].

(** The same with generators that are observed. *)
Definition logged_world : @renderer E (logged (list value)) :=
  Renderer.Make empty_store [] [].

Definition logged_iam_job : job (logged (list value)) :=
  RenderJob_init "iam.tf.py" "iam.tf.json" "iam.tf.json"
    (start_logged iam_blocks).

(** The observed job and its renderer after one [run]. *)
Definition after_first_run
  : job (logged (list value)) * @renderer E (logged (list value)) :=
  Eval vm_compute in
    match
      RenderJob_run (send_logged send_script) (logged_iam_job, logged_world)
    with
    | Return _ jw => jw
    | Throw _ jw => jw
    end.

(** Two collections and a producer that yields them, between a
    variable and an output, followed by a Block of its own. *)
Definition user_block (label : string) : value :=
  VDict [("resource", VDict [("aws_iam_user", VDict [(label, VDict [])])])].

Definition coll_a : value :=
  VColl [user_block "peanut"; user_block "cornelius"] [("name", VStr "a")].

Definition coll_b : value := VColl [user_block "walnut"] [].

Definition nested_yields : list value :=
  [Block "variable.name" None;
   coll_a;
   coll_b;
   Block "resource.aws_iam_group.dogs" (Some [("name", VStr "dogs")]);
   Block "output.group" (Some [("value", VStr "dogs")])].

Definition group_block : value :=
  VDict [("resource", VDict [("aws_iam_group",
           VDict [("dogs", VDict [("name", VStr "dogs")])])])].





Definition waiting_world (js : list (job (list value))) : world :=
  Renderer.Make (Reference.MkStore [] ["x.tfvars.json"] : @store E) js [].

End Demo.

(** A computation that, when it returns, has left a part of the state as
    it was. *)
Definition preserves {S A B : Type} (part : S -> B) (m : M S A) : Prop :=
  forall s a s', m s = Return a s' -> part s' = part s.

(** An outcome with a part of its state dropped. *)
Definition outcome_map {S S' A : Type} (f : S -> S') (o : outcome S A)
  : outcome S' A :=
  match o with
  | Return a s => Return a (f s)
  | Throw e s => Throw e (f s)
  end.

(** ** Definitions used to state further properties *)

(** The segments of the reference that [Block.__getattr__] builds from
    the segments of a path, before the attribute name is appended:
    [resource] is dropped, [variable] becomes [var]. *)
Definition reference_segments (parts : list string) : list string :=
  match parts with
  | [] => []
  | p0 :: rest =>
      if String.eqb p0 "resource" then rest
      else if String.eqb p0 "variable" then "var" :: rest
      else p0 :: rest
  end.

(** The first segment of a path. *)
Definition first_segment (path : string) : string :=
  hd "" (Str.split Str.dot path).

(** [ref.a1.a2....an]: attribute accesses chained on a reference. *)
Definition Interpolated_chain (v : string) (attrs : list string) : string :=
  fold_left
    (fun p attr =>
       match Interpolated_getattr p attr with
       | VInterp q => q
       | _ => p
       end)
    attrs v.

(** A value that [unwrap_yielded] cannot iterate. *)
Definition not_iterable (v : value) : bool :=
  match v with
  | VNone | VBool _ | VInt _ | VInterp _ => true
  | _ => false
  end.

(** The outputs recorded from a list of blocks, in order, on top of the
    outputs recorded before. *)
Definition recorded_outputs {E : Externals} (bs : list value) (outs : dict)
  : dict :=
  fold_left (fun o b => assign_items o (fst (get_outputs_from_block b))) bs outs.

(** The contents of the last job of a list that writes to a given output
    path. *)
Definition last_contents {G : Type} (p : string) (js : list (RenderJob.t G))
  : option value :=
  fold_left
    (fun found j =>
       if String.eqb p (RenderJob.output_path j) then
         match RenderJob_contents j with
         | Ok c => Some c
         | Raise _ => found
         end
       else found)
    js None.

(** ** Jobs over scripted producers *)

(** A job of a definition or resource file whose scripted producer yields
    values that can be unwrapped. *)
Definition plain_job (j : RenderJob.t (list value)) : Prop :=
  Str.endswith (RenderJob.output_name j) ".tfvars.json" = false
  /\ Forall (fun y => not_iterable y = false) (RenderJob.gen j).

(** The job once its producer has been run to the end: every yielded value
    unwrapped and appended, the last yielded value kept. *)
Definition finish_job (j : RenderJob.t (list value)) : RenderJob.t (list value) :=
  RenderJob.Make (RenderJob.path j) [] (RenderJob.done j)
    (RenderJob.output_path j) (RenderJob.output_name j)
    (last (RenderJob.gen j) (RenderJob.return_value j))
    (RenderJob.blocks j ++ unwrapped (RenderJob.gen j)).

(** The number of times the producers of a list of jobs are resumed until
    all have stopped. *)
Definition resumptions (js : list (RenderJob.t (list value))) : nat :=
  list_sum (map (fun j => S (List.length (RenderJob.gen j))) js).

(** The value bound last to a key in a list of items. *)
Definition last_binding (k : string) (items : list (string * value))
  : option value :=
  fold_left
    (fun found kv => if String.eqb k (fst kv) then Some (snd kv) else found)
    items None.

(** All the outputs of a list of blocks, in order. *)
Definition emitted_outputs {E : Externals} (bs : list value)
  : list (string * value) :=
  flat_map (fun b => fst (get_outputs_from_block b)) bs.

(** * Properties *)

(** ** Strings *)

Module StrFacts.

Lemma split_not_nil (sep : ascii) (s : string) : Str.split sep s <> [].
Proof.
  induction s as [|c rest IH]; simpl; [discriminate|].
  destruct (Ascii.eqb c sep); [discriminate|].
  destruct (Str.split sep rest); discriminate.
Qed.

(** Without the separator a string is its own single segment. *)
Lemma split_no_sep (sep : ascii) (s : string) :
  Str.contains sep s = false -> Str.split sep s = [s].
Proof.
  induction s as [|c rest IH]; simpl; [reflexivity|].
  destruct (Ascii.eqb c sep); [discriminate|].
  intros H. rewrite (IH H). reflexivity.
Qed.

(** With the separator there are at least two segments. *)
Lemma split_sep (sep : ascii) (s : string) :
  Str.contains sep s = true ->
  exists s1 s2 rest, Str.split sep s = s1 :: s2 :: rest.
Proof.
  induction s as [|c rest IH]; simpl; [discriminate|].
  destruct (Ascii.eqb c sep).
  - intros _. destruct (Str.split sep rest) as [|x xs] eqn:Hs.
    + exfalso. exact (split_not_nil _ _ Hs).
    + eauto.
  - intros H. destruct (IH H) as (s1 & s2 & r & ->). eauto.
Qed.

Lemma append_assoc (s1 s2 s3 : string) : (s1 ++ s2) ++ s3 = s1 ++ s2 ++ s3.
Proof. induction s1 as [|c s1 IH]; simpl; [reflexivity|now rewrite IH]. Qed.

(** A first segment without the separator is split off as it is. *)
Lemma split_app_sep (sep : ascii) (s1 s2 : string) :
  Str.contains sep s1 = false ->
  Str.split sep (s1 ++ String sep s2) = s1 :: Str.split sep s2.
Proof.
  induction s1 as [|c s1 IH]; simpl.
  - intros _. now rewrite Ascii.eqb_refl.
  - destruct (Ascii.eqb c sep); [discriminate|].
    intros H. now rewrite (IH H).
Qed.

Lemma join_snoc (sep : string) (l : list string) (x : string) :
  l <> [] -> Str.join sep (l ++ [x]) = Str.join sep l ++ sep ++ x.
Proof.
  induction l as [|a l IH]; [congruence|]. intros _.
  destruct l as [|b l]; [reflexivity|].
  change (Str.join sep ((a :: b :: l) ++ [x]))
    with (a ++ sep ++ Str.join sep ((b :: l) ++ [x])).
  rewrite IH by discriminate.
  change (Str.join sep (a :: b :: l)) with (a ++ sep ++ Str.join sep (b :: l)).
  now rewrite !append_assoc.
Qed.

(** Joining the segments of a string gives the string back. *)
Lemma join_split (sep : ascii) (s : string) :
  Str.join (String sep EmptyString) (Str.split sep s) = s.
Proof.
  induction s as [|c rest IH]; simpl; [reflexivity|].
  destruct (Ascii.eqb_spec c sep) as [->|Hne].
  - destruct (Str.split sep rest) as [|seg segs] eqn:Hs.
    + exfalso. exact (split_not_nil _ _ Hs).
    + simpl in *. now rewrite IH.
  - destruct (Str.split sep rest) as [|seg segs] eqn:Hs.
    + exfalso. exact (split_not_nil _ _ Hs).
    + destruct segs as [|seg2 segs]; simpl in *; now rewrite IH.
Qed.

End StrFacts.

(** ** Dicts *)

Module DictFacts.
Section Facts.
Variable V : Type.
Implicit Types (d other : list (string * V)) (k : string) (v : V).

Lemma set_fresh k v d :
  ~ In k (Dict.keys d) -> Dict.set k v d = (d ++ [(k, v)])%list.
Proof.
  induction d as [|[k' v'] rest IH]; simpl; intros Hk; [reflexivity|].
  destruct (String.eqb_spec k k') as [->|Hne].
  - exfalso. apply Hk. now left.
  - rewrite IH; [reflexivity|]. intros Hin. apply Hk. now right.
Qed.

Lemma update_fresh other : forall d,
  NoDup (Dict.keys d ++ Dict.keys other) ->
  Dict.update d other = (d ++ other)%list.
Proof.
  unfold Dict.update.
  induction other as [|[k v] rest IH]; simpl; intros d Hnd.
  - now rewrite app_nil_r.
  - rewrite set_fresh.
    + rewrite IH.
      * now rewrite <- app_assoc.
      * unfold Dict.keys in *. rewrite map_app. simpl.
        rewrite <- app_assoc. exact Hnd.
    + apply NoDup_remove_2 in Hnd. intros Hin. apply Hnd.
      apply in_or_app. now left.
Qed.

(** Filling an empty dict from a dict gives that dict back. *)
Lemma update_empty other :
  Dict.wf other -> Dict.update [] other = other.
Proof. intros Hwf. now rewrite update_fresh. Qed.

Lemma get_set_same k v d : Dict.get k (Dict.set k v d) = Some v.
Proof.
  induction d as [|[k' v'] rest IH]; simpl.
  - now rewrite String.eqb_refl.
  - destruct (String.eqb_spec k k') as [->|Hne]; simpl.
    + now rewrite String.eqb_refl.
    + destruct (String.eqb_spec k k'); [contradiction|exact IH].
Qed.

Lemma get_set_other k k0 v d :
  k <> k0 -> Dict.get k (Dict.set k0 v d) = Dict.get k d.
Proof.
  intros Hne.
  induction d as [|[k' v'] rest IH]; simpl.
  - destruct (String.eqb_spec k k0); [contradiction|reflexivity].
  - destruct (String.eqb_spec k0 k') as [->|Hne']; simpl.
    + destruct (String.eqb_spec k k'); [contradiction|reflexivity].
    + destruct (String.eqb_spec k k'); [reflexivity|exact IH].
Qed.

Lemma keys_set k v d :
  Dict.keys (Dict.set k v d) =
  if existsb (String.eqb k) (Dict.keys d) then Dict.keys d
  else (Dict.keys d ++ [k])%list.
Proof.
  induction d as [|[k' v'] rest IH]; simpl; [reflexivity|].
  destruct (String.eqb_spec k k') as [->|Hne]; simpl; [reflexivity|].
  rewrite IH. now destruct (existsb _ _).
Qed.

Lemma existsb_eqb_In k (l : list string) :
  existsb (String.eqb k) l = true <-> In k l.
Proof.
  rewrite existsb_exists. split.
  - intros (x & Hin & Heq). apply String.eqb_eq in Heq. now subst.
  - intros Hin. exists k. split; [exact Hin|apply String.eqb_refl].
Qed.

Lemma set_wf k v d : Dict.wf d -> Dict.wf (Dict.set k v d).
Proof.
  unfold Dict.wf. intros Hwf. rewrite keys_set.
  destruct (existsb (String.eqb k) (Dict.keys d)) eqn:Hex; [exact Hwf|].
  apply NoDup_app; [exact Hwf|repeat constructor; simpl; tauto|].
  intros x Hx [<-|[]].
  apply existsb_eqb_In in Hx. congruence.
Qed.

Lemma get_In k d : Dict.get k d <> None <-> In k (Dict.keys d).
Proof.
  induction d as [|[k' v'] rest IH]; simpl.
  - split; [congruence|tauto].
  - destruct (String.eqb_spec k k') as [->|Hne].
    + split; [now left|discriminate].
    + rewrite IH. split; [now right|].
      intros [Heq|Hin]; [congruence|exact Hin].
Qed.
End Facts.
End DictFacts.

(** ** The heap of [Block.__iter__] *)

Module HeapFacts.
Import Heap.
Local Open Scope list_scope.

Lemma nth_error_middle (pre : heap) (o : obj) (post : heap) :
  nth_error (pre ++ o :: post) (List.length pre) = Some o.
Proof. induction pre; simpl; auto. Qed.

Lemma setitem_middle (pre : heap) (o : obj) (post : heap) k c :
  setitem (pre ++ o :: post) (List.length pre) k c =
  Some (pre ++ Dict.set k c o :: post)%list.
Proof.
  unfold setitem. rewrite nth_error_middle. f_equal.
  induction pre as [|x pre IH]; simpl; [reflexivity|].
  f_equal. exact IH.
Qed.

Lemma getitem_middle (pre : heap) (o : obj) (post : heap) k :
  getitem (pre ++ o :: post) (List.length pre) k = Dict.get k o.
Proof. unfold getitem. now rewrite nth_error_middle. Qed.

Lemma length_links parts : forall base,
  List.length (links base parts) = List.length parts.
Proof. induction parts; simpl; intros; auto. Qed.

(** The loop of [Block.__iter__], started on a fresh empty dict that is
    the last object of the heap, leaves the chain of its segments and
    [here] on a fresh empty dict at the end of it. *)
Lemma iter_parts_chain parts : forall pre,
  Block_iter_parts parts (pre ++ [[]]) (List.length pre) =
  Some ((pre ++ links (List.length pre) parts ++ [[]])%list,
        List.length pre + List.length parts).
Proof.
  induction parts as [|p rest IH]; intros pre; simpl.
  - now rewrite Nat.add_0_r.
  - unfold alloc. rewrite <- app_assoc. simpl.
    rewrite setitem_middle. simpl.
    rewrite getitem_middle. simpl. rewrite String.eqb_refl.
    rewrite length_app. simpl.
    rewrite !Nat.add_1_r.
    specialize (IH (pre ++ [[(p, CRef (S (List.length pre)))]])).
    rewrite length_app, <- !app_assoc in IH. simpl in IH.
    rewrite !Nat.add_1_r in IH.
    etransitivity; [exact IH|].
    now rewrite <- plus_n_Sm.
Qed.

(** [update] on the last object of the heap assigns the items in order. *)
Lemma update_last body : forall pre o,
  update (pre ++ [o]) (List.length pre) body =
  Some (pre ++ [Dict.update o (of_dict body)])%list.
Proof.
  induction body as [|[k v] rest IH]; intros pre o; simpl; [reflexivity|].
  rewrite setitem_middle. simpl. now rewrite IH.
Qed.

Lemma reify_items_of_dict deref (d : dict) :
  reify_items deref (of_dict d) = Some d.
Proof.
  induction d as [|[k v] rest IH]; simpl; [reflexivity|].
  now rewrite IH.
Qed.

Lemma of_dict_update (body : dict) : forall d,
  Dict.update (of_dict d) (of_dict body) = of_dict (Dict.update d body).
Proof.
  unfold Dict.update.
  induction body as [|[k v] rest IH]; intros d; simpl; [reflexivity|].
  rewrite <- IH. f_equal.
  induction d as [|[k' v'] d' IHd]; simpl; [reflexivity|].
  destruct (String.eqb k k'); simpl; [reflexivity|]. now rewrite IHd.
Qed.

(** Reading a chain back gives the nested mapping of its segments. *)
Lemma reify_chain parts : forall pre (d : dict) fuel,
  List.length parts < fuel ->
  option_map VDict
    (reify fuel (pre ++ links (List.length pre) parts ++ [of_dict d])
       (List.length pre)) =
  Some (nested_mapping parts d).
Proof.
  induction parts as [|p rest IH]; intros pre d fuel Hfuel;
    (destruct fuel as [|fuel]; [lia|]); simpl.
  - rewrite nth_error_middle. simpl. now rewrite reify_items_of_dict.
  - rewrite nth_error_middle. simpl.
    specialize (IH (pre ++ [[(p, CRef (S (List.length pre)))]])%list d fuel).
    rewrite length_app in IH. simpl in IH.
    rewrite Nat.add_1_r in IH. rewrite <- app_assoc in IH. simpl in IH.
    destruct (reify fuel _ (S (List.length pre))) as [inner|];
      simpl in IH; [|now discriminate IH; simpl in *; lia].
    simpl. f_equal. f_equal. f_equal.
    assert (H : Some (VDict inner) = Some (nested_mapping rest d))
      by (apply IH; simpl in Hfuel; lia).
    now inversion H.
Qed.

End HeapFacts.

(** ** [Block.__iter__] *)

Lemma descend_nested_mapping (segments : list string) (body : dict) :
  descend segments (nested_mapping segments body) = Some (VDict body).
Proof.
  induction segments as [|s rest IH]; simpl; [reflexivity|].
  now rewrite String.eqb_refl.
Qed.

(** Flattening never fails, whatever the path and the items of the body:
    a dotted path gives the chain of its segments around a copy of the
    body, an undotted one the body under the path. *)
Lemma Block_iter_total (path : string) (body : dict) :
  option_map VDict (Block_iter path body) =
  Some (nested_mapping (Str.split Str.dot path)
          (if Str.contains Str.dot path then dict_of_items body else body)).
Proof.
  unfold Block_iter. simpl.
  destruct (Str.contains Str.dot path) eqn:Hdot.
  - pose proof (HeapFacts.iter_parts_chain (Str.split Str.dot path) []) as Hloop.
    simpl in Hloop. rewrite Hloop. cbv beta iota delta [Heap.obind].
    pose proof (HeapFacts.update_last body
                  (Heap.links 0 (Str.split Str.dot path)) []) as Hupd.
    rewrite HeapFacts.length_links in Hupd.
    unfold Heap.heap, Heap.obj in *. rewrite Hupd.
    change (@nil (string * Heap.cell)) with (Heap.of_dict []).
    rewrite HeapFacts.of_dict_update.
    apply (HeapFacts.reify_chain (Str.split Str.dot path) []).
    rewrite length_app, HeapFacts.length_links. simpl. lia.
  - rewrite (StrFacts.split_no_sep _ _ Hdot). reflexivity.
Qed.

(** On a body without a repeated key the copy is the body itself. *)
Lemma Block_iter_wf (path : string) (body : dict) :
  Dict.wf body ->
  option_map VDict (Block_iter path body) =
  Some (nested_mapping (Str.split Str.dot path) body).
Proof.
  intros Hwf. rewrite Block_iter_total. unfold dict_of_items.
  rewrite (DictFacts.update_empty Hwf). now destruct (Str.contains _ _).
Qed.

(** C3: for every dotted path [s1.s2....sn] and body, flattening a Block
    succeeds and gives the mapping nested under the literal segment names
    with the body at the bottom, [n] levels down; a path of one segment
    gives [{s1: body}] with no extra nesting. *)
Theorem Block_iter_nested (path : string) (body : dict) :
  Dict.wf body ->
  let segments := Str.split Str.dot path in
  option_map VDict (Block_iter path body) = Some (nested_mapping segments body)
  /\ descend segments (nested_mapping segments body) = Some (VDict body)
  /\ segments <> []
  /\ (Str.contains Str.dot path = false ->
      Block_iter path body = Some [(path, VDict body)]).
Proof.
  intros Hwf segments. subst segments. repeat split.
  - now apply Block_iter_wf.
  - apply descend_nested_mapping.
  - apply StrFacts.split_not_nil.
  - intros Hdot. pose proof (Block_iter_total path body) as Ht.
    rewrite Hdot, (StrFacts.split_no_sep _ _ Hdot) in Ht. simpl in Ht.
    destruct (Block_iter path body) as [items|]; simpl in Ht; [|discriminate].
    now inversion Ht.
Qed.

Lemma Block_iter_nested_witness :
  Dict.wf [("name", VStr "peanut"); ("path", VStr "/")]
  /\ option_map VDict
       (Block_iter "resource.aws_iam_user.peanut"
          [("name", VStr "peanut"); ("path", VStr "/")]) =
     Some (VDict [("resource", VDict [("aws_iam_user", VDict [("peanut",
             VDict [("name", VStr "peanut"); ("path", VStr "/")])])])])
  /\ Str.contains Str.dot "terraform" = false
  /\ Block_iter "terraform" [("name", VStr "peanut"); ("path", VStr "/")] =
     Some [("terraform", VDict [("name", VStr "peanut"); ("path", VStr "/")])].
Proof.
  assert (Hwf : Dict.wf [("name", VStr "peanut"); ("path", VStr "/")]).
  { unfold Dict.wf. simpl. repeat constructor; simpl; intuition discriminate. }
  split; [exact Hwf|].
  split; [exact (proj1 (Block_iter_nested "resource.aws_iam_user.peanut" Hwf))|].
  split; [reflexivity|].
  apply (proj2 (proj2 (proj2 (Block_iter_nested "terraform" Hwf)))).
  reflexivity.
Defined.

(** ** [Block.__getattr__] and [Interpolated] *)

(** A [resource] block is referenced by the rest of its path followed by
    the attribute name. *)
Lemma Block_getattr_resource (rest name : string) (body : dict) :
  Block_getattr ("resource." ++ rest) body name =
  Ok (VInterp (rest ++ "." ++ name)).
Proof.
  unfold Block_getattr.
  change ("resource." ++ rest) with ("resource" ++ String Str.dot rest).
  rewrite StrFacts.split_app_sep by reflexivity. simpl.
  rewrite StrFacts.join_snoc by apply StrFacts.split_not_nil.
  pose proof (StrFacts.join_split Str.dot rest) as Hjoin.
  change (String Str.dot "") with "." in Hjoin. now rewrite Hjoin.
Qed.

(** A reference equals exactly the string of its textual form. *)
Lemma Interpolated_eq_str (v s : string) :
  Interpolated_eq v (VStr s) = true <-> s = Interpolated_str v.
Proof.
  unfold Interpolated_eq. rewrite String.eqb_eq. split; congruence.
Qed.

(** C5: the attribute [arn] of the Block [resource.aws_iam_user.peanut] is
    a Reference Expression with the textual form
    [${aws_iam_user.peanut.arn}]: the [resource] segment is dropped, the
    attribute name appended and the whole wrapped; it compares equal to
    that plain string. *)
Theorem Block_getattr_peanut_arn (body : dict) :
  Block_getattr "resource.aws_iam_user.peanut" body "arn" =
    Ok (VInterp "aws_iam_user.peanut.arn")
  /\ is_reference (VInterp "aws_iam_user.peanut.arn") = true
  /\ textual_form (VInterp "aws_iam_user.peanut.arn") =
       Some "${aws_iam_user.peanut.arn}"
  /\ Interpolated_str "aws_iam_user.peanut.arn" = "${aws_iam_user.peanut.arn}"
  /\ Interpolated_eq "aws_iam_user.peanut.arn"
       (VStr "${aws_iam_user.peanut.arn}") = true.
Proof.
  split; [exact (Block_getattr_resource "aws_iam_user.peanut" "arn" body)|].
  repeat split.
Qed.

(** The claim about [provider] blocks fails on the code: the access gives
    the plain string [aws.east], which is not a Reference Expression and
    whose text is not [${aws.east}]. *)
Lemma provider_alias_is_plain_string :
  Block_getattr "provider.aws" [("alias", VStr "east")] "region" =
    Ok (VStr "aws.east")
  /\ ~ provider_reference_claim "provider.aws" [("alias", VStr "east")]
         "region" "${aws.east}".
Proof.
  split; [reflexivity|].
  intros (r & Hr & Href & _).
  vm_compute in Hr. inversion Hr; subst r. discriminate Href.
Qed.

(** C1, amended: on the Block [provider.aws] every attribute access gives
    a plain string, not a Reference Expression: [aws.east] when the body
    maps [alias] to [east], [aws] when the body has no [alias]; the
    attribute name asked for is not part of it. *)
Theorem Block_getattr_provider (body : dict) (name : string) :
  (Dict.get "alias" body = Some (VStr "east") ->
   Block_getattr "provider.aws" body name = Ok (VStr "aws.east")
   /\ is_reference (VStr "aws.east") = false
   /\ textual_form (VStr "aws.east") = Some "aws.east")
  /\ (Dict.get "alias" body = None ->
      Block_getattr "provider.aws" body name = Ok (VStr "aws")
      /\ is_reference (VStr "aws") = false
      /\ textual_form (VStr "aws") = Some "aws").
Proof.
  unfold Block_getattr. simpl.
  split; intros ->; simpl; repeat split; reflexivity.
Qed.

Lemma Block_getattr_provider_witness :
  (Dict.get "alias" [("alias", VStr "east")] = Some (VStr "east")
   /\ Block_getattr "provider.aws" [("alias", VStr "east")] "region" =
      Ok (VStr "aws.east"))
  /\ (Dict.get "alias" [("region", VStr "us-east-1")] = None
      /\ Block_getattr "provider.aws" [("region", VStr "us-east-1")] "region" =
         Ok (VStr "aws")).
Proof.
  split; (split; [reflexivity|]).
  - apply (proj1 (Block_getattr_provider [("alias", VStr "east")] "region")).
    reflexivity.
  - apply (proj2 (Block_getattr_provider [("region", VStr "us-east-1")] "region")
             eq_refl).
Defined.

(** ** [Collection.__getattr__] *)

Lemma dict_contains_get (name : string) (d : dict) :
  dict_contains name d = true <-> Dict.get name d <> None.
Proof.
  unfold dict_contains.
  rewrite DictFacts.existsb_eqb_In. symmetry. apply DictFacts.get_In.
Qed.

(** C9: on every Collection, [__getattr__], which Python calls for every
    name that is not an attribute the object has of its own, gives the
    recorded value for the name of a recorded output and raises [output
    not defined] for any other name; nothing else can happen. *)
Theorem Collection_getattr_outputs (outs : dict) (name : string) :
  Collection_getattr outs name =
    match Dict.get name outs with
    | Some v => Ok v
    | None => Raise (AttributeError ("output not defined: " ++ name))
    end
  /\ (In name (Dict.keys outs) <->
      exists v, Collection_getattr outs name = Ok v)
  /\ (~ In name (Dict.keys outs) <->
      Collection_getattr outs name =
      Raise (AttributeError ("output not defined: " ++ name))).
Proof.
  unfold Collection_getattr.
  pose proof (dict_contains_get name outs) as Hc.
  pose proof (DictFacts.get_In name outs) as Hin.
  destruct (Dict.get name outs) as [v|] eqn:Hget.
  - assert (Htrue : dict_contains name outs = true)
      by (apply Hc; discriminate).
    rewrite Htrue. repeat split; try eauto.
    + intros _. apply Hin. discriminate.
    + intros Hno. exfalso. apply Hno, Hin. discriminate.
    + discriminate.
  - destruct (dict_contains name outs) eqn:Hfalse.
    + exfalso. now apply Hc.
    + repeat split; try eauto.
      * intros Hk. exfalso. now apply Hin in Hk.
      * intros (v & Hv). discriminate.
      * intros _ Hk. now apply Hin in Hk.
Qed.

(** ** [Collection.__iter__] and [unwrap_yielded] *)


Lemma Collection_iter_nested (bs : list value) (outs : dict) (rest : list value) :
  Collection_iter (VColl bs outs :: rest) =
  (Collection_iter bs ++ Collection_iter rest)%list.
Proof. reflexivity. Qed.

Lemma Collection_iter_plain (b : value) (rest : list value) :
  is_collection b = false ->
  Collection_iter (b :: rest) = b :: Collection_iter rest.
Proof. destruct b; simpl; intros H; try reflexivity; discriminate. Qed.

(** No Collection object is among the items a Collection iterates over. *)
Lemma Collection_iter_block_no_collection (v : value) :
  Forall (fun b => is_collection b = false) (Collection_iter_block v).
Proof.
  induction v using value_nested_ind; simpl; try (repeat constructor).
  induction blocks as [|b bs IHbs]; simpl; [constructor|].
  inversion H; subst. apply Forall_app. split; auto.
Qed.

Lemma Collection_iter_no_collection (blocks : list value) :
  Forall (fun b => is_collection b = false) (Collection_iter blocks).
Proof.
  exact (Collection_iter_block_no_collection (VColl blocks [])).
Qed.

Lemma unwrap_recursive_dicts (items : list value) :
  Forall (fun b => is_dict b = true) items ->
  flat_map_result unwrap_recursive items = Ok items.
Proof.
  induction 1 as [|x l Hx Hl IH]; simpl; [reflexivity|].
  destruct x; try discriminate. simpl. simpl in IH. now rewrite IH.
Qed.

(** On a Collection whose iteration gives mappings only, unwrapping every
    item in turn changes nothing. *)
Lemma unwrap_recursive_collection (v : value) :
  Forall (fun b => is_dict b = true) (Collection_iter_block v) ->
  is_dict v = true \/ is_collection v = true ->
  unwrap_recursive v = Ok (Collection_iter_block v).
Proof.
  induction v using value_nested_ind; simpl; intros Hd Hk;
    try (destruct Hk; discriminate); try reflexivity.
  clear Hk H0.
  induction blocks as [|b bs IHbs]; simpl in *; [reflexivity|].
  inversion H as [|? ? Hb Hbs]; subst.
  apply Forall_app in Hd. destruct Hd as [Hd1 Hd2].
  rewrite IHbs by assumption.
  assert (Hkind : is_dict b = true \/ is_collection b = true).
  { destruct b; simpl in *; auto; inversion Hd1; discriminate. }
  rewrite (Hb Hd1 Hkind). reflexivity.
Qed.

(** The claim that the items of a yielded sequence are unwrapped in turn
    fails on the code: a Block inside a list comes out as the Block it is,
    not as its flattened mapping. *)
Lemma unwrap_yielded_list_of_block :
  unwrap_yielded (VList [Block "resource.aws_iam_user.peanut" None]) =
    Ok [Block "resource.aws_iam_user.peanut" None]
  /\ unwrap_recursive (VList [Block "resource.aws_iam_user.peanut" None]) =
    Ok [VDict [("resource", VDict [("aws_iam_user", VDict [("peanut", VDict [])])])]]
  /\ ~ unwrap_recursive_claim (VList [Block "resource.aws_iam_user.peanut" None]).
Proof.
  repeat split. intros H. vm_compute in H. discriminate H.
Qed.

(** C2, amended: a Block gives exactly one mapping, its flattened form; a
    mapping is passed through unchanged; any other value is iterated and
    its items come out in order as they are, not unwrapped in turn.  The
    iteration of a Collection already flattens the Collections nested in
    it, so for a list of mappings and for a Collection that iterates to
    mappings this is the recursive unwrapping. *)
Theorem unwrap_yielded_cases :
  (forall path body, Dict.wf body ->
     unwrap_yielded (VBlock path body) =
     Ok [nested_mapping (Str.split Str.dot path) body])
  /\ (forall d, unwrap_yielded (VDict d) = Ok [VDict d])
  /\ (forall items, unwrap_yielded (VList items) = Ok items)
  /\ (forall blocks outs,
        unwrap_yielded (VColl blocks outs) = Ok (Collection_iter blocks)
        /\ Forall (fun b => is_collection b = false) (Collection_iter blocks))
  /\ (forall items, Forall (fun b => is_dict b = true) items ->
        unwrap_recursive_claim (VList items))
  /\ (forall blocks outs,
        Forall (fun b => is_dict b = true) (Collection_iter blocks) ->
        unwrap_recursive_claim (VColl blocks outs)).
Proof.
  repeat split.
  - intros path body Hwf. simpl.
    pose proof (Block_iter_wf path Hwf) as Hn.
    destruct (Block_iter path body); simpl in Hn; [|discriminate].
    now inversion Hn.
  - apply Collection_iter_no_collection.
  - intros items Hd. unfold unwrap_recursive_claim. simpl.
    now rewrite unwrap_recursive_dicts.
  - intros blocks outs Hd. unfold unwrap_recursive_claim.
    rewrite (unwrap_recursive_collection (VColl blocks outs)); auto.
Qed.

Lemma unwrap_yielded_cases_witness :
  unwrap_yielded (VBlock "variable.name" [("default", VStr "/")]) =
    Ok [VDict [("variable", VDict [("name", VDict [("default", VStr "/")])])]]
  /\ unwrap_recursive_claim (VList [VDict [("a", VInt 1)]; VDict []])
  /\ unwrap_recursive_claim
       (VColl [VColl [VDict [("a", VInt 1)]] []; VDict [("b", VInt 2)]] []).
Proof.
  split; [|split].
  - apply (proj1 unwrap_yielded_cases "variable.name").
    unfold Dict.wf. simpl. repeat constructor. simpl. tauto.
  - apply (proj1 (proj2 (proj2 (proj2 (proj2 unwrap_yielded_cases))))).
    repeat constructor.
  - apply (proj2 (proj2 (proj2 (proj2 (proj2 unwrap_yielded_cases))))).
    repeat constructor.
Defined.

(** ** [RenderJob.contents] *)

Section Contents.
Variable G : Type.
Implicit Types (d m : dict) (ds : list dict) (k : string).

Lemma assign_items_get k d : forall m,
  Dict.wf d ->
  Dict.get k (assign_items m d) =
  match Dict.get k d with
  | Some v => Some v
  | None => Dict.get k m
  end.
Proof.
  unfold assign_items.
  induction d as [|[k0 v0] rest IH]; simpl; intros m Hwf; [reflexivity|].
  inversion Hwf as [|? ? Hnotin Hrest]; subst.
  rewrite (IH _ Hrest).
  destruct (String.eqb_spec k k0) as [->|Hne].
  - destruct (Dict.get k0 rest) eqn:Hget.
    + exfalso. apply Hnotin. apply DictFacts.get_In. congruence.
    + apply DictFacts.get_set_same.
  - now rewrite DictFacts.get_set_other.
Qed.

Lemma assign_items_wf d : forall m, Dict.wf m -> Dict.wf (assign_items m d).
Proof.
  unfold assign_items.
  induction d as [|[k0 v0] rest IH]; simpl; intros m Hm; [exact Hm|].
  apply IH. now apply DictFacts.set_wf.
Qed.

Lemma merge_blocks_ok ds : forall m,
  fold_left
    (fun acc block =>
       merged <- acc ;;
       items <- value_items block ;;
       Ok (fold_left (fun m' kv => Dict.set (fst kv) (snd kv) m') items merged))
    (map VDict ds) (Ok m) =
  Ok (fold_left assign_items ds m).
Proof.
  induction ds as [|d rest IH]; simpl; intros m; [reflexivity|].
  apply IH.
Qed.

Lemma merge_blocks_get k ds : forall m,
  Forall (@Dict.wf value) ds ->
  Dict.get k (fold_left assign_items ds m) =
  fold_left
    (fun found d => match Dict.get k d with Some v => Some v | None => found end)
    ds (Dict.get k m).
Proof.
  induction ds as [|d rest IH]; simpl; intros m Hwf; [reflexivity|].
  inversion Hwf; subst. rewrite IH by assumption.
  now rewrite assign_items_get.
Qed.

Lemma merge_blocks_wf ds : forall m,
  Dict.wf m -> Dict.wf (fold_left assign_items ds m).
Proof.
  induction ds as [|d rest IH]; simpl; intros m Hm; [exact Hm|].
  apply IH. now apply assign_items_wf.
Qed.

(** C7: the contents of a variable-value file (output name ending in
    [.tfvars.json]) are one flat mapping, the collected mappings merged
    in order with a later block overriding an earlier one on the same
    key; the contents of any other file are the list of the collected
    blocks as recorded. *)
Theorem RenderJob_contents_assembly (j : RenderJob.t G) :
  (Str.endswith (RenderJob.output_name j) ".tfvars.json" = false ->
   RenderJob_contents j = Ok (VList (RenderJob.blocks j)))
  /\ (forall ds,
        Str.endswith (RenderJob.output_name j) ".tfvars.json" = true ->
        RenderJob.blocks j = map VDict ds ->
        Forall (@Dict.wf value) ds ->
        exists merged,
          RenderJob_contents j = Ok (VDict merged)
          /\ Dict.wf merged
          /\ forall k, Dict.get k merged = merge_later_wins ds k).
Proof.
  unfold RenderJob_contents. split.
  - intros ->. reflexivity.
  - intros ds -> -> Hwf.
    exists (fold_left assign_items ds []).
    rewrite merge_blocks_ok. simpl. repeat split.
    + apply merge_blocks_wf. constructor.
    + intros k. now rewrite merge_blocks_get.
Qed.
End Contents.

Lemma RenderJob_contents_assembly_witness :
  RenderJob_contents
    (RenderJob.Make "main.tf.py" tt true "main.tf.json" "main.tf.json" VNone
       [VDict [("a", VInt 1)]; VDict [("a", VInt 2)]]) =
    Ok (VList [VDict [("a", VInt 1)]; VDict [("a", VInt 2)]])
  /\ exists merged,
       RenderJob_contents
         (RenderJob.Make "x.tfvars.py" tt true "x.tfvars.json" "x.tfvars.json"
            VNone
            (map VDict [[("a", VInt 1); ("b", VInt 1)]; [("a", VInt 2)]])) =
       Ok (VDict merged)
       /\ Dict.get "a" merged = Some (VInt 2)
       /\ Dict.get "b" merged = Some (VInt 1).
Proof.
  split.
  - apply (proj1 (RenderJob_contents_assembly
                    (RenderJob.Make "main.tf.py" tt true "main.tf.json"
                       "main.tf.json" VNone
                       [VDict [("a", VInt 1)]; VDict [("a", VInt 2)]]))).
    reflexivity.
  - destruct (proj2 (RenderJob_contents_assembly
                       (RenderJob.Make "x.tfvars.py" tt true "x.tfvars.json"
                          "x.tfvars.json" VNone
                          (map VDict [[("a", VInt 1); ("b", VInt 1)];
                                      [("a", VInt 2)]])))
                [[("a", VInt 1); ("b", VInt 1)]; [("a", VInt 2)]]
                eq_refl eq_refl) as (merged & Hc & _ & Hget).
    + repeat constructor; simpl; intuition discriminate.
    + exists merged. split; [exact Hc|].
      split; rewrite Hget; reflexivity.
Defined.

(** ** [RenderJob.run] *)

Lemma fold_result_raise {A B : Type} (f : A -> B -> result A) (l : list B)
  (e : exn) :
  fold_left (fun acc b => a <- acc ;; f a b) l (Raise e) = Raise e.
Proof. induction l as [|b rest IH]; simpl; [reflexivity|exact IH]. Qed.

Section RunFacts.
Context {E : Externals}.
Variable G : Type.
Variable send : G -> value -> renderer G -> sent G (renderer G).

Implicit Types (j : job G) (w : renderer G) (st : store).

Lemma set_variables_twice st st' w :
  set_variables st' (set_variables st w) = set_variables st' w.
Proof. reflexivity. Qed.

(** Adding variables one by one through the job is [add_all] on the
    shared store. *)
Lemma for_each_variables_add {A : Type} (mk : A -> variable)
  (allow_change : bool) (xs : list A) : forall j w st',
  add_all allow_change (map mk xs) (Renderer.variables w) = Ok st' ->
  for_each xs (fun x => variables_add (mk x) allow_change) (j, w) =
  Return tt (j, set_variables st' w).
Proof.
  unfold add_all.
  induction xs as [|x rest IH]; simpl; intros j w st' Hadd.
  - inversion Hadd; subst. destruct w; reflexivity.
  - unfold bind at 1. unfold variables_add at 1.
    unfold bind, get_state. simpl.
    destruct (store_add (Renderer.variables w) (mk x) allow_change)
      as [st1|e] eqn:Hone.
    + simpl. rewrite (IH j (set_variables st1 w) st' Hadd).
      reflexivity.
    + rewrite fold_result_raise in Hadd. discriminate.
Qed.

(** One block: the store is classified on, the block is appended. *)
Lemma run_block_classify (b : value) j w st' :
  classify_block (RenderJob.path j) (RenderJob.output_name j) b
    (Renderer.variables w) = Ok st' ->
  run_block b (j, w) =
  Return tt (append_job_block b j, set_variables st' w).
Proof.
  unfold classify_block, run_block.
  unfold bind at 1. unfold get_state at 1. simpl.
  destruct (Str.endswith (RenderJob.output_name j) ".tfvars.json").
  - unfold process_tfvars_block, bind at 1. unfold bind at 1.
    unfold get_state at 1. simpl.
    destruct (tfvars_waiting_for (Renderer.variables w)
                (RenderJob.output_name j)).
    + destruct (value_items b) as [items|e]; simpl; [|discriminate].
      intros Hadd. unfold bind at 1. simpl.
      rewrite (for_each_variables_add
                 (fun kv => VariableValue (fst kv) (snd kv) (RenderJob.path j))
                 false items j w Hadd).
      reflexivity.
    + intros Hst. inversion Hst; subst. destruct w; reflexivity.
  - unfold process_tf_block, bind at 1. unfold bind at 1.
    unfold get_state at 1. simpl. unfold for_drained.
    destruct (get_variables_from_block b (RenderJob.path j))
      as [vars err]. simpl.
    destruct (add_all true vars (Renderer.variables w)) as [st1|e] eqn:Hadd;
      simpl; [|discriminate].
    destruct err as [e|]; [discriminate|]. intros Hst. inversion Hst; subst.
    unfold bind at 1.
    rewrite <- (map_id vars) in Hadd.
    rewrite (for_each_variables_add (fun v => v) true vars j w Hadd).
    reflexivity.
Qed.

(** The job after the blocks [bs] were appended one by one. *)
Lemma append_blocks_fields (bs : list value) : forall j,
  let j' := fold_left (fun acc b => append_job_block b acc) bs j in
  RenderJob.blocks j' = (RenderJob.blocks j ++ bs)%list
  /\ RenderJob.return_value j' = RenderJob.return_value j
  /\ RenderJob.gen j' = RenderJob.gen j
  /\ RenderJob.path j' = RenderJob.path j
  /\ RenderJob.output_name j' = RenderJob.output_name j
  /\ RenderJob.output_path j' = RenderJob.output_path j
  /\ RenderJob.done j' = RenderJob.done j.
Proof.
  induction bs as [|b rest IH]; simpl; intros j.
  - rewrite app_nil_r. repeat split.
  - destruct (IH (append_job_block b j)) as (H1 & H2 & H3 & H4 & H5 & H6 & H7).
    simpl in *. rewrite H1, <- app_assoc. repeat split; assumption.
Qed.

Lemma for_each_run_block (bs : list value) : forall j w st',
  classify_blocks (RenderJob.path j) (RenderJob.output_name j) bs
    (Renderer.variables w) = Ok st' ->
  for_each bs (run_block (G := G)) (j, w) =
  Return tt (fold_left (fun acc b => append_job_block b acc) bs j,
             set_variables st' w).
Proof.
  unfold classify_blocks.
  induction bs as [|b rest IH]; simpl; intros j w st' Hc.
  - inversion Hc; subst. destruct w; reflexivity.
  - destruct (classify_block (RenderJob.path j) (RenderJob.output_name j) b
                (Renderer.variables w)) as [st1|e] eqn:Hone; simpl in Hc.
    + unfold bind at 1. rewrite (run_block_classify b j w Hone).
      rewrite (IH (append_job_block b j) (set_variables st1 w) st' Hc).
      reflexivity.
    + rewrite fold_result_raise in Hc. discriminate.
Qed.
End RunFacts.

Section RunStep.
Context {E : Externals}.
Variable G : Type.
Variable send : G -> value -> renderer G -> sent G (renderer G).

Implicit Types (j : job G) (w : renderer G).

(** A call of [run] that yields returns [False] if it returns. *)
Lemma RenderJob_run_yielded_false j w y g w' b jw :
  send (RenderJob.gen j) (RenderJob.return_value j) w = Yielded y g w' ->
  RenderJob_run send (j, w) = Return b jw -> b = false.
Proof.
  unfold RenderJob_run. simpl. intros ->.
  unfold bind, put_state. simpl.
  destruct (lift_result (unwrap_yielded y) _) as [bs s1|e s1]; [|discriminate].
  destruct (for_each bs _ s1) as [u s2|e s2]; [|discriminate].
  unfold ret. congruence.
Qed.

(** C6: one call of [run] resumes the generator once, with the value kept
    from the previous step.  If the generator has stopped, the store is
    told that the output file exists ([file_created] with the output
    name) and the call returns [True]; if it has yielded, every unwrapped
    block is classified on the store and appended to the blocks of the
    job in emission order, the yielded value is kept for the next step,
    and the call returns [False]. *)
Theorem RenderJob_run_step j w :
  (forall g w' st,
     send (RenderJob.gen j) (RenderJob.return_value j) w = Stopped g w' ->
     file_created (Renderer.variables w') (RenderJob.output_name j) = Ok st ->
     RenderJob_run send (j, w) =
     Return true (set_gen g j, set_variables st w'))
  /\ (forall y g w' bs st,
        send (RenderJob.gen j) (RenderJob.return_value j) w = Yielded y g w' ->
        unwrap_yielded y = Ok bs ->
        classify_blocks (RenderJob.path j) (RenderJob.output_name j) bs
          (Renderer.variables w') = Ok st ->
        exists j',
          RenderJob_run send (j, w) = Return false (j', set_variables st w')
          /\ RenderJob.blocks j' = (RenderJob.blocks j ++ bs)%list
          /\ RenderJob.return_value j' = y
          /\ RenderJob.gen j' = g
          /\ RenderJob.output_name j' = RenderJob.output_name j)
  /\ (forall y g w' b jw,
        send (RenderJob.gen j) (RenderJob.return_value j) w = Yielded y g w' ->
        RenderJob_run send (j, w) = Return b jw -> b = false).
Proof.
  split; [|split].
  - intros g w' st Hsend Hfile. unfold RenderJob_run. simpl.
    now rewrite Hsend, Hfile.
  - intros y g w' bs st Hsend Hunwrap Hclass.
    pose (j1 := set_return_value y (set_gen g j)).
    exists (fold_left (fun acc b => append_job_block b acc) bs j1).
    destruct (append_blocks_fields bs j1) as (H1 & H2 & H3 & _ & H5 & _).
    repeat split; try assumption.
    unfold RenderJob_run. simpl. rewrite Hsend.
    unfold bind at 1. unfold put_state at 1.
    unfold bind at 1. rewrite Hunwrap. simpl.
    unfold bind at 1. fold j1.
    rewrite (for_each_run_block bs j1 w' Hclass).
    reflexivity.
  - intros y g w' b jw. apply RenderJob_run_yielded_false.
Qed.
End RunStep.

Lemma RenderJob_run_step_witness :
  RenderJob_run (E := Demo.E) send_script (Demo.finished_job, Demo.world_of []) =
    Return true (Demo.finished_job, Demo.world_of [])
  /\ (exists j',
        RenderJob_run (E := Demo.E) send_script (Demo.iam_job, Demo.world_of []) =
          Return false
            (j', Renderer.Make
                   (Reference.MkStore [("path", VStr "/")] [] : @store Demo.E)
                   [] [])
        /\ RenderJob.blocks j' =
           [VDict [("variable", VDict [("path", VDict [("default", VStr "/")])])]]
        /\ RenderJob.return_value j' =
           Block "variable.path" (Some [("default", VStr "/")]))
  /\ (exists j',
        RenderJob_run (E := Demo.E) send_script
          (Demo.tfvars_job, Demo.waiting_world []) =
          Return false
            (j', Renderer.Make
                   (Reference.MkStore [("region", VStr "eu")] ["x.tfvars.json"]
                    : @store Demo.E) [] [])
        /\ RenderJob.blocks j' = [VDict [("region", VStr "eu")]])
  /\ (forall b jw,
        RenderJob_run (E := Demo.E) send_script (Demo.iam_job, Demo.world_of []) =
          Return b jw -> b = false).
Proof.
  split; [|split; [|split]].
  - apply (proj1 (RenderJob_run_step (E := Demo.E) send_script
                    Demo.finished_job (Demo.world_of []))
             [] (Demo.world_of []) Demo.empty_store);
      reflexivity.
  - destruct (proj1 (proj2 (RenderJob_run_step (E := Demo.E) send_script
                              Demo.iam_job (Demo.world_of [])))
                (Block "variable.path" (Some [("default", VStr "/")]))
                (tl Demo.iam_blocks) (Demo.world_of [])
                [VDict [("variable", VDict [("path", VDict [("default", VStr "/")])])]]
                (Reference.MkStore [("path", VStr "/")] [] : @store Demo.E)
                eq_refl eq_refl eq_refl)
      as (j' & Hrun & Hblocks & Hret & _).
    exists j'. repeat split; assumption.
  - destruct (proj1 (proj2 (RenderJob_run_step (E := Demo.E) send_script
                              Demo.tfvars_job (Demo.waiting_world [])))
                (VDict [("region", VStr "eu")]) [] (Demo.waiting_world [])
                [VDict [("region", VStr "eu")]]
                (Reference.MkStore [("region", VStr "eu")] ["x.tfvars.json"]
                 : @store Demo.E)
                eq_refl eq_refl eq_refl)
      as (j' & Hrun & Hblocks & _).
    exists j'. split; assumption.
  - intros b jw.
    apply (proj2 (proj2 (RenderJob_run_step (E := Demo.E) send_script
                           Demo.iam_job (Demo.world_of [])))
             (Block "variable.path" (Some [("default", VStr "/")]))
             (tl Demo.iam_blocks) (Demo.world_of [])).
    reflexivity.
Defined.

(** ** [Renderer.process_jobs] and [Renderer.render] *)

Section Scheduling.
Context {E : Externals}.
Variable G : Type.
Variable send : G -> value -> renderer G -> sent G (renderer G).

Implicit Types (j : job G) (w : renderer G) (until : option string).

(** [pop] takes the job appended last. *)
Lemma pop_last (rest : list (job G)) j : pop (rest ++ [j]) = Some (j, rest).
Proof. unfold pop. rewrite rev_unit. now rewrite rev_involutive. Qed.

Lemma pop_none (js : list (job G)) : pop js = None <-> js = [].
Proof.
  unfold pop. split.
  - destruct (rev js) eqn:Hrev; [|discriminate]. intros _.
    rewrite <- (rev_involutive js), Hrev. reflexivity.
  - intros ->. reflexivity.
Qed.

Lemma until_reached_spec until w :
  until_reached until w = true <->
  exists name, until = Some name /\ name <> ""
               /\ store_contains (Renderer.variables w) name = true.
Proof.
  unfold until_reached. destruct until as [name|].
  - rewrite andb_true_iff, negb_true_iff, String.eqb_neq. split.
    + intros [Hne Hin]. eauto.
    + intros (n & Heq & Hne & Hin). inversion Heq; subst. auto.
  - split; [discriminate|]. intros (n & Heq & _). discriminate.
Qed.

(** The loop is left normally only with no job pending or with the
    awaited variable in the store. *)
Lemma process_jobs_returns (fuel : nat) : forall until w w',
  process_jobs send fuel until w = Some (Return tt w') ->
  Renderer.jobs w' = [] \/ until_reached until w' = true.
Proof.
  induction fuel as [|fuel IH]; simpl; intros u w w' Hrun; [discriminate|].
  destruct (pop (Renderer.jobs w)) as [[j rest]|] eqn:Hpop.
  - destruct (until_reached u w) eqn:Huntil.
    + inversion Hrun; subst. now right.
    + destruct (RenderJob_run send _) as [[|] [j' w1]|e [j' w1]];
        [eapply IH; eassumption|eapply IH; eassumption|discriminate].
  - inversion Hrun; subst. left. now apply pop_none.
Qed.

(** C8: when [process_jobs] returns, no job is pending or the variable
    it was called with is in the store; without [until] it returns only
    with no job pending.  One turn of the loop pops the job pushed
    last, runs it one step and moves it to the completed jobs if it is
    done or pushes it back if not; with [until] in the store the loop
    stops at once and leaves the pending jobs as they are. *)
Theorem process_jobs_loop (fuel : nat) until w :
  (forall w', process_jobs send fuel until w = Some (Return tt w') ->
     Renderer.jobs w' = []
     \/ exists name, until = Some name
                     /\ store_contains (Renderer.variables w') name = true)
  /\ (forall w', process_jobs send fuel None w = Some (Return tt w') ->
        Renderer.jobs w' = [])
  /\ (forall rest j,
        Renderer.jobs w = (rest ++ [j])%list ->
        until_reached until w = false ->
        process_jobs send (S fuel) until w =
        match
          RenderJob_run send
            (j, Renderer.Make (Renderer.variables w) rest (Renderer.done w))
        with
        | Throw e (_, w1) => Some (Throw e w1)
        | Return true (j', w1) =>
            process_jobs send fuel until
              (Renderer.Make (Renderer.variables w1) (Renderer.jobs w1)
                 (Renderer.done w1 ++ [j']))
        | Return false (j', w1) =>
            process_jobs send fuel until
              (Renderer.Make (Renderer.variables w1)
                 (Renderer.jobs w1 ++ [j']) (Renderer.done w1))
        end)
  /\ (forall name,
        until = Some name -> name <> "" ->
        store_contains (Renderer.variables w) name = true ->
        process_jobs send (S fuel) until w = Some (Return tt w)).
Proof.
  split; [|split; [|split]].
  - intros w' Hrun.
    destruct (process_jobs_returns _ _ _ Hrun) as [Hempty|Huntil];
      [now left|right].
    apply until_reached_spec in Huntil.
    destruct Huntil as (name & Heq & _ & Hin). eauto.
  - intros w' Hrun.
    destruct (process_jobs_returns _ _ _ Hrun) as [Hempty|Huntil];
      [assumption|discriminate].
  - intros rest j Hjobs Huntil. simpl.
    now rewrite Hjobs, pop_last, Huntil.
  - intros name -> Hne Hin.
    assert (Huntil : until_reached (Some name) w = true)
      by (apply until_reached_spec; eauto).
    cbn [process_jobs]. rewrite Huntil. now destruct (pop (Renderer.jobs w)) as [[j rest]|].
Qed.

(** A render that returns has left no job pending. *)
Lemma render_leaves_no_job (fuel : nat) w results w' :
  render send fuel w = Some (Return results w') -> Renderer.jobs w' = [].
Proof.
  unfold render.
  destruct (process_jobs send fuel None w) as [[u w1|e w1]|] eqn:Hrun;
    [|discriminate|discriminate].
  destruct u.
  destruct (process_jobs_returns _ _ _ Hrun) as [Hempty|Huntil];
    [|discriminate].
  destruct (render_results (Renderer.done w1)); intros Hr;
    inversion Hr; subst. exact Hempty.
Qed.
End Scheduling.

Lemma process_jobs_loop_witness :
  (exists w',
     process_jobs (E := Demo.E) send_script 10 (Some "path")
       (Demo.world_of [Demo.finished_job; Demo.iam_job]) = Some (Return tt w')
     /\ (Renderer.jobs w' = []
         \/ exists name, Some "path" = Some name
                         /\ store_contains (Renderer.variables w') name = true))
  /\ (exists w',
        process_jobs (E := Demo.E) send_script 10 None
          (Demo.world_of [Demo.finished_job; Demo.iam_job]) = Some (Return tt w')
        /\ Renderer.jobs w' = [])
  /\ process_jobs (E := Demo.E) send_script 1 None
       (Demo.world_of [Demo.finished_job; Demo.iam_job]) = None
  /\ process_jobs (E := Demo.E) send_script 1 (Some "path")
       (Demo.populated_world [Demo.iam_job]) =
     Some (Return tt (Demo.populated_world [Demo.iam_job])).
Proof.
  split; [|split; [|split]].
  - eexists. split; [vm_compute; reflexivity|].
    apply (proj1 (process_jobs_loop (E := Demo.E) send_script 10 (Some "path")
                    (Demo.world_of [Demo.finished_job; Demo.iam_job]))).
    vm_compute. reflexivity.
  - eexists. split; [vm_compute; reflexivity|].
    apply (proj1 (proj2 (process_jobs_loop (E := Demo.E) send_script 10 None
                           (Demo.world_of [Demo.finished_job; Demo.iam_job])))).
    vm_compute. reflexivity.
  - rewrite (proj1 (proj2 (proj2 (process_jobs_loop (E := Demo.E) send_script 0
                                    None
                                    (Demo.world_of [Demo.finished_job; Demo.iam_job]))))
               [Demo.finished_job] Demo.iam_job eq_refl eq_refl).
    reflexivity.
  - apply (proj2 (proj2 (proj2 (process_jobs_loop (E := Demo.E) send_script 0
                                  (Some "path")
                                  (Demo.populated_world [Demo.iam_job]))))
             "path" eq_refl).
    + discriminate.
    + reflexivity.
Defined.

(** ** Parts of the state a computation leaves alone *)

Section Preserves.
Variables S B : Type.
Variable part : S -> B.

Lemma preserves_ret {A} (a : A) : preserves part (ret a).
Proof. intros s a' s' H. inversion H; subst. reflexivity. Qed.

Lemma preserves_get_state : preserves part (@get_state S).
Proof. intros s a' s' H. inversion H; subst. reflexivity. Qed.

Lemma preserves_throw {A} (e : exn) : preserves part (@throw S A e).
Proof. intros s a' s' H. discriminate H. Qed.

Lemma preserves_lift_result {A} (r : result A) :
  preserves part (@lift_result S A r).
Proof.
  destruct r; simpl; [apply preserves_ret|apply preserves_throw].
Qed.

Lemma preserves_bind {A C} (m : M S A) (k : A -> M S C) :
  preserves part m -> (forall a, preserves part (k a)) ->
  preserves part (bind m k).
Proof.
  intros Hm Hk s c s'. unfold bind.
  destruct (m s) as [a s1|e s1] eqn:Hms; [|discriminate].
  intros Hks. rewrite (Hk a s1 c s' Hks). eapply Hm; eassumption.
Qed.

Lemma preserves_for_each {A} (xs : list A) (body : A -> M S unit) :
  (forall x, preserves part (body x)) -> preserves part (for_each xs body).
Proof.
  intros Hbody. induction xs as [|x rest IH]; simpl.
  - apply preserves_ret.
  - apply preserves_bind; auto.
Qed.

Lemma preserves_for_drained {A} (xs : drained A) (body : A -> M S unit) :
  (forall x, preserves part (body x)) -> preserves part (for_drained xs body).
Proof.
  intros Hbody. unfold for_drained. apply preserves_bind.
  - now apply preserves_for_each.
  - intros _. destruct (snd xs); [apply preserves_throw|apply preserves_ret].
Qed.
End Preserves.

(** ** What [run] does to the job *)

Section RunJob.
Context {E : Externals}.
Variable G : Type.
Variable send : G -> value -> renderer G -> sent G (renderer G).

Implicit Types (j : job G) (w : renderer G).

Lemma variables_add_keeps_job (var : variable) (allow_change : bool) :
  preserves fst (variables_add (G := G) var allow_change).
Proof.
  intros [j w] a [j' w']. unfold variables_add, bind, get_state. simpl.
  destruct (store_add (Renderer.variables w) var allow_change); simpl;
    [|discriminate].
  unfold put_state. intros H. now inversion H.
Qed.

Lemma process_tf_block_keeps_job (b : value) :
  preserves fst (process_tf_block (G := G) b).
Proof.
  unfold process_tf_block. apply preserves_bind; [apply preserves_get_state|].
  intros jw. apply preserves_for_drained.
  intros var. apply variables_add_keeps_job.
Qed.

Lemma process_tfvars_block_keeps_job (b : value) :
  preserves fst (process_tfvars_block (G := G) b).
Proof.
  unfold process_tfvars_block.
  apply preserves_bind; [apply preserves_get_state|].
  intros jw. destruct (tfvars_waiting_for _ _); [|apply preserves_ret].
  apply preserves_bind; [apply preserves_lift_result|].
  intros items. apply preserves_for_each.
  intros kv. apply variables_add_keeps_job.
Qed.

(** A block that was processed without an exception was appended. *)
Lemma run_block_job (b : value) j w u j' w' :
  run_block b (j, w) = Return u (j', w') -> j' = append_job_block b j.
Proof.
  unfold run_block. unfold bind at 1. unfold get_state at 1. simpl.
  unfold bind at 1.
  destruct ((if Str.endswith (RenderJob.output_name j) ".tfvars.json"
             then process_tfvars_block b else process_tf_block b) (j, w))
    as [a [j1 w1]|e s1] eqn:Hproc; [|discriminate].
  assert (Hkeep : j1 = j).
  { destruct (Str.endswith (RenderJob.output_name j) ".tfvars.json").
    - exact (process_tfvars_block_keeps_job b (j, w) Hproc).
    - exact (process_tf_block_keeps_job b (j, w) Hproc). }
  subst j1. unfold modify. simpl. intros H. now inversion H.
Qed.

Lemma for_each_run_block_job (bs : list value) : forall j w u j' w',
  for_each bs (run_block (G := G)) (j, w) = Return u (j', w') ->
  j' = fold_left (fun acc b => append_job_block b acc) bs j.
Proof.
  induction bs as [|b rest IH]; simpl; intros j w u j' w' Hrun.
  - inversion Hrun; subst. reflexivity.
  - unfold bind in Hrun.
    destruct (run_block b (j, w)) as [a [j1 w1]|e s1] eqn:Hb; [|discriminate].
    apply run_block_job in Hb. subst j1.
    eapply IH; eassumption.
Qed.

(** A run in which the generator yields: the job keeps the yielded value
    and the new generator state and has the unwrapped blocks appended. *)
Lemma RenderJob_run_yielded j w y g w1 b j' w' :
  send (RenderJob.gen j) (RenderJob.return_value j) w = Yielded y g w1 ->
  RenderJob_run send (j, w) = Return b (j', w') ->
  b = false
  /\ exists bs,
      unwrap_yielded y = Ok bs
      /\ j' = fold_left (fun acc x => append_job_block x acc) bs
                (set_return_value y (set_gen g j)).
Proof.
  intros Hsend Hrun. split.
  - eapply RenderJob_run_yielded_false; eassumption.
  - unfold RenderJob_run in Hrun. simpl in Hrun. rewrite Hsend in Hrun.
    unfold bind at 1 in Hrun. unfold put_state at 1 in Hrun.
    unfold bind at 1 in Hrun.
    destruct (unwrap_yielded y) as [bs|e]; simpl in Hrun; [|discriminate].
    exists bs. split; [reflexivity|].
    unfold bind in Hrun.
    destruct (for_each bs _ _) as [u [j2 w2]|e s2] eqn:Hloop; [|discriminate].
    unfold ret in Hrun. inversion Hrun; subst.
    eapply for_each_run_block_job; eassumption.
Qed.

(** A run in which the generator stops changes nothing else in the job. *)
Lemma RenderJob_run_stopped j w g w1 b j' w' :
  send (RenderJob.gen j) (RenderJob.return_value j) w = Stopped g w1 ->
  RenderJob_run send (j, w) = Return b (j', w') ->
  b = true /\ j' = set_gen g j.
Proof.
  intros Hsend. unfold RenderJob_run. simpl. rewrite Hsend.
  destruct (file_created _ _); [|discriminate].
  intros H. inversion H; subst. auto.
Qed.

Lemma RenderJob_run_raised j w e g w1 b jw :
  send (RenderJob.gen j) (RenderJob.return_value j) w = Raised e g w1 ->
  RenderJob_run send (j, w) <> Return b jw.
Proof.
  intros Hsend. unfold RenderJob_run. simpl. rewrite Hsend. discriminate.
Qed.
End RunJob.

(** ** The values sent into a producer *)

Section SentValues.
Context {E : Externals}.
Variable G : Type.
(** The producer of a collection and the producer of a render job. *)
Variable send_c : G -> value -> store -> sent G store.
Variable send_r :
  G -> value -> renderer (logged G) -> sent G (renderer (logged G)).

Implicit Types (g : logged G) (j : job (logged G)).

(** In the driver loop of [collect] the value to send next is the value
    yielded last: the log of the sent values stays one [None] ahead of
    the log of the yielded ones. *)
Lemma collect_loop_sent (fuel : nat) : forall func_name g v c g' c',
  collect_loop (send_logged send_c) fuel func_name g v c =
    Some (Return tt (g', c')) ->
  (sent_log g ++ [v])%list = VNone :: yielded_log g ->
  sent_log g' = VNone :: yielded_log g'.
Proof.
  induction fuel as [|fuel IH]; simpl; intros func_name g v c g' c' Hrun Hinv;
    [discriminate|].
  unfold send_logged in Hrun.
  destruct (send_c (inner g) v (Collecting.var_store c)) as [y g1 st|g1 st|e g1 st].
  - destruct (bind _ _ _) as [u c1|e c1]; [|discriminate].
    apply IH in Hrun; [exact Hrun|]. simpl.
    rewrite Hinv. reflexivity.
  - inversion Hrun; subst. exact Hinv.
  - discriminate.
Qed.

(** One [run] sends the job's [return_value], and if the generator
    yields, that value is the next [return_value]. *)
Lemma RenderJob_run_logs j w b j' w' :
  RenderJob_run (send_logged send_r) (j, w) = Return b (j', w') ->
  sent_log (RenderJob.gen j') =
    (sent_log (RenderJob.gen j) ++ [RenderJob.return_value j])%list
  /\ yielded_log (RenderJob.gen j') =
     if b then yielded_log (RenderJob.gen j)
     else (yielded_log (RenderJob.gen j) ++ [RenderJob.return_value j'])%list.
Proof.
  intros Hrun.
  destruct (send_logged send_r (RenderJob.gen j) (RenderJob.return_value j) w)
    as [y g1 w1|g1 w1|e g1 w1] eqn:Hsend.
  - destruct (RenderJob_run_yielded _ _ _ Hsend Hrun) as (-> & bs & _ & ->).
    destruct (append_blocks_fields bs
                (set_return_value y (set_gen g1 j))) as (_ & -> & -> & _).
    simpl. unfold send_logged in Hsend.
    destruct (send_r _ _ _); inversion Hsend; subst; simpl; auto.
  - destruct (RenderJob_run_stopped _ _ _ Hsend Hrun) as (-> & ->).
    simpl. unfold send_logged in Hsend.
    destruct (send_r _ _ _); inversion Hsend; subst; simpl; auto.
  - exfalso. exact (RenderJob_run_raised _ _ _ Hsend Hrun).
Qed.

(** C10: in the driver of [collect] and in [RenderJob.run] the value
    sent into the producer at a resumption is the value the producer
    yielded at its previous suspension, unchanged, and [None] at the
    first advance: the values sent are [None] followed by the values
    yielded. *)
Theorem sent_is_previous_yield :
  (forall fuel func_name (g0 : G) c g' c',
     collect_loop (send_logged send_c) fuel func_name (start_logged g0)
       VNone c = Some (Return tt (g', c')) ->
     sent_log g' = VNone :: yielded_log g')
  /\ (forall path output_path output_name (g0 : G) w b j' w',
        RenderJob_run (send_logged send_r)
          (RenderJob_init path output_path output_name (start_logged g0), w) =
          Return b (j', w') ->
        sent_log (RenderJob.gen j') = [VNone])
  /\ (forall j w b j' w',
        RenderJob_run (send_logged send_r) (j, w) = Return b (j', w') ->
        (sent_log (RenderJob.gen j) ++ [RenderJob.return_value j])%list =
          VNone :: yielded_log (RenderJob.gen j) ->
        sent_log (RenderJob.gen j') =
          (sent_log (RenderJob.gen j) ++ [RenderJob.return_value j])%list
        /\ if b then sent_log (RenderJob.gen j') =
                     VNone :: yielded_log (RenderJob.gen j')
           else (sent_log (RenderJob.gen j') ++ [RenderJob.return_value j'])%list =
                VNone :: yielded_log (RenderJob.gen j')).
Proof.
  split; [|split].
  - intros fuel func_name g0 c g' c' Hrun.
    eapply collect_loop_sent; [exact Hrun|reflexivity].
  - intros path output_path output_name g0 w b j' w' Hrun.
    destruct (RenderJob_run_logs _ _ Hrun) as (Hsent & _).
    exact Hsent.
  - intros j w b j' w' Hrun Hinv.
    destruct (RenderJob_run_logs _ _ Hrun) as (Hsent & Hyield).
    split; [exact Hsent|].
    rewrite Hsent, Hyield. destruct b.
    + exact Hinv.
    + rewrite Hinv. reflexivity.
Qed.
End SentValues.

Lemma sent_is_previous_yield_witness :
  (exists g' c',
     collect_loop (E := Demo.E) (send_logged send_script) 5 "iam_user"
       (start_logged Demo.iam_blocks) VNone
       (Collecting.Make Demo.empty_store [] []) = Some (Return tt (g', c'))
     /\ sent_log g' = VNone :: yielded_log g')
  /\ (exists b j' w',
        RenderJob_run (E := Demo.E) (send_logged send_script)
          (Demo.logged_iam_job, Demo.logged_world) = Return b (j', w')
        /\ sent_log (RenderJob.gen j') = [VNone])
  /\ (exists b j2 w2,
        RenderJob_run (E := Demo.E) (send_logged send_script)
          (fst Demo.after_first_run, snd Demo.after_first_run) =
          Return b (j2, w2)
        /\ sent_log (RenderJob.gen j2) =
           (sent_log (RenderJob.gen (fst Demo.after_first_run))
              ++ [RenderJob.return_value (fst Demo.after_first_run)])%list).
Proof.
  split; [|split].
  - do 2 eexists. split; [vm_compute; reflexivity|].
    eapply (proj1 (sent_is_previous_yield (E := Demo.E) send_script send_script)
              5 "iam_user" Demo.iam_blocks
              (Collecting.Make Demo.empty_store [] [])).
    vm_compute. reflexivity.
  - do 3 eexists. split; [vm_compute; reflexivity|].
    eapply (proj1 (proj2 (sent_is_previous_yield (E := Demo.E)
                            send_script send_script))
              "iam.tf.py" "iam.tf.json" "iam.tf.json" Demo.iam_blocks
              Demo.logged_world).
    vm_compute. reflexivity.
  - do 3 eexists. split; [vm_compute; reflexivity|].
    eapply (proj1 (proj2 (proj2 (sent_is_previous_yield (E := Demo.E)
                                   send_script send_script))
                     (fst Demo.after_first_run) (snd Demo.after_first_run)
                     _ _ _ _ _)).
    Unshelve.
    3: vm_compute; reflexivity.
    vm_compute; reflexivity.
Defined.

(** ** The blocks of a collection *)

Lemma Collection_iter_block_plain (b : value) :
  is_collection b = false -> Collection_iter_block b = [b].
Proof. destruct b; simpl; intros H; try reflexivity; discriminate. Qed.

Lemma Collection_iter_plain_list (bs : list value) :
  Forall (fun b => is_collection b = false) bs -> Collection_iter bs = bs.
Proof.
  induction 1 as [|b rest Hb Hrest IH]; [reflexivity|].
  rewrite (Collection_iter_plain _ _ Hb). now rewrite IH.
Qed.

Section CollectFacts.
Context {E : Externals}.
Variable G : Type.
Variable send : G -> value -> store -> sent G store.

Implicit Types (c : collecting) (g : logged G).





(** Observing the generator does not change what [collect] does. *)
Lemma collect_loop_logged (fuel : nat) : forall func_name g v c,
  collect_loop send fuel func_name (inner g) v c =
  option_map (outcome_map (fun gc => (inner (fst gc), snd gc)))
    (collect_loop (send_logged send) fuel func_name g v c).
Proof.
  induction fuel as [|fuel IH]; simpl; intros func_name g v c; [reflexivity|].
  unfold send_logged.
  destruct (send (inner g) v (Collecting.var_store c)) as [y g1 st|g1 st|e g1 st];
    try reflexivity.
  destruct (bind _ _ _) as [u c1|e c1]; [|reflexivity].
  exact (IH func_name
           (Logged g1 (sent_log g ++ [v]) (yielded_log g ++ [y])) y c1).
Qed.
End CollectFacts.

Section CollectIter.
Context {E : Externals}.
Variable G : Type.
Variable send : G -> value -> store -> sent G store.




End CollectIter.



(** * Further properties of the code *)

(** ** More on strings *)

Module StrMore.

Lemma length_append (s t : string) :
  String.length (s ++ t) = String.length s + String.length t.
Proof. induction s as [|c s IH]; simpl; [reflexivity|now rewrite IH]. Qed.

(** Cancelling a common end. *)
Lemma append_cancel_r (t : string) : forall s s', s ++ t = s' ++ t -> s = s'.
Proof.
  induction s as [|c s IH]; intros [|c' s'] H; simpl in H.
  - reflexivity.
  - exfalso. apply (f_equal String.length) in H. simpl in H.
    rewrite length_append in H. lia.
  - exfalso. apply (f_equal String.length) in H. simpl in H.
    rewrite length_append in H. lia.
  - inversion H; subst. f_equal. now apply IH.
Qed.

Lemma append_cancel_l (t : string) : forall s s', t ++ s = t ++ s' -> s = s'.
Proof.
  induction t as [|c t IH]; simpl; intros s s' H; [exact H|].
  inversion H. now apply IH.
Qed.

(** No segment of a split holds the separator. *)
Lemma split_segments (sep : ascii) (s : string) :
  Forall (fun seg => Str.contains sep seg = false) (Str.split sep s).
Proof.
  induction s as [|c rest IH]; simpl; [repeat constructor|].
  destruct (Ascii.eqb c sep) eqn:Hc.
  - constructor; [reflexivity|exact IH].
  - destruct (Str.split sep rest) as [|seg segs].
    + repeat constructor. simpl. now rewrite Hc.
    + inversion IH; subst. constructor; [|assumption].
      simpl. now rewrite Hc.
Qed.

(** Splitting what was joined gives the segments back. *)
Lemma split_join (sep : ascii) (l : list string) :
  l <> [] ->
  Forall (fun seg => Str.contains sep seg = false) l ->
  Str.split sep (Str.join (String sep EmptyString) l) = l.
Proof.
  induction l as [|a l IH]; [congruence|]. intros _ Hall.
  inversion Hall as [|? ? Ha Hl]; subst.
  destruct l as [|b l].
  - simpl. now apply StrFacts.split_no_sep.
  - change (Str.join (String sep "") (a :: b :: l))
      with (a ++ String sep (Str.join (String sep "") (b :: l))).
    rewrite StrFacts.split_app_sep by exact Ha.
    rewrite IH; [reflexivity|discriminate|exact Hl].
Qed.

Lemma split_single (sep : ascii) (s p : string) :
  Str.split sep s = [p] -> s = p.
Proof.
  intros H. rewrite <- (StrFacts.join_split sep s), H. reflexivity.
Qed.

End StrMore.

(** ** More on [Block.__getattr__] *)

Lemma Block_getattr_not_provider (path : string) (body : dict) (name : string) :
  first_segment path <> "provider" ->
  Block_getattr path body name =
  Ok (VInterp (Str.join "."
                 (reference_segments (Str.split Str.dot path) ++ [name]))).
Proof.
  unfold first_segment, Block_getattr, reference_segments.
  destruct (Str.split Str.dot path) as [|p0 rest] eqn:Hs.
  - exfalso. exact (StrFacts.split_not_nil _ _ Hs).
  - simpl. intros Hp.
    destruct (String.eqb p0 "resource"); [reflexivity|].
    destruct (String.eqb p0 "variable"); [reflexivity|].
    destruct (String.eqb_spec p0 "provider"); [contradiction|reflexivity].
Qed.

Lemma reference_segments_no_dot (parts : list string) :
  Forall (fun seg => Str.contains Str.dot seg = false) parts ->
  Forall (fun seg => Str.contains Str.dot seg = false) (reference_segments parts).
Proof.
  unfold reference_segments. intros Hall.
  destruct parts as [|p0 rest]; [constructor|].
  inversion Hall; subst.
  destruct (String.eqb p0 "resource"); [assumption|].
  destruct (String.eqb p0 "variable"); [|assumption].
  constructor; [reflexivity|assumption].
Qed.

(** X1: outside [provider] blocks, the reference that an attribute access
    gives splits into the segments of the path, with a leading [resource]
    dropped and a leading [variable] turned into [var], followed by the
    attribute name. *)
Theorem Block_getattr_segments (path : string) (body : dict) (name : string) :
  first_segment path <> "provider" ->
  Str.contains Str.dot name = false ->
  exists v,
    Block_getattr path body name = Ok (VInterp v)
    /\ Str.split Str.dot v =
       (reference_segments (Str.split Str.dot path) ++ [name])%list.
Proof.
  intros Hp Hname. eexists. split.
  - now apply Block_getattr_not_provider.
  - change "." with (String Str.dot "").
    apply StrMore.split_join.
    + destruct (reference_segments (Str.split Str.dot path)); discriminate.
    + apply Forall_app. split.
      * apply reference_segments_no_dot, StrMore.split_segments.
      * now repeat constructor.
Qed.

Lemma Block_getattr_segments_witness :
  exists v,
    Block_getattr "variable.user_names" [] "value" = Ok (VInterp v)
    /\ Str.split Str.dot v = ["var"; "user_names"; "value"].
Proof.
  apply (Block_getattr_segments "variable.user_names" [] "value").
  - discriminate.
  - reflexivity.
Defined.

(** X2: a block that is neither a resource, a variable nor a provider is
    referenced by its whole path followed by the attribute name. *)
Theorem Block_getattr_whole_path (path : string) (body : dict) (name : string) :
  first_segment path <> "resource" ->
  first_segment path <> "variable" ->
  first_segment path <> "provider" ->
  Block_getattr path body name = Ok (VInterp (path ++ "." ++ name)).
Proof.
  intros Hr Hv Hp. rewrite Block_getattr_not_provider by exact Hp.
  unfold first_segment, reference_segments in *.
  destruct (Str.split Str.dot path) as [|p0 rest] eqn:Hs.
  - exfalso. exact (StrFacts.split_not_nil _ _ Hs).
  - simpl in Hr, Hv.
    destruct (String.eqb_spec p0 "resource"); [contradiction|].
    destruct (String.eqb_spec p0 "variable"); [contradiction|].
    rewrite StrFacts.join_snoc by discriminate.
    rewrite <- Hs.
    pose proof (StrFacts.join_split Str.dot path) as Hjoin.
    change (String Str.dot "") with "." in Hjoin. now rewrite Hjoin.
Qed.

Lemma Block_getattr_whole_path_witness :
  Block_getattr "data.aws_ami.ubuntu" [] "id" =
  Ok (VInterp "data.aws_ami.ubuntu.id").
Proof.
  apply (Block_getattr_whole_path "data.aws_ami.ubuntu" [] "id");
    discriminate.
Defined.

(** X3: a variable block is referenced as [var], the rest of its path and
    the attribute name; a block whose whole path is [variable] as
    [var] and the attribute name. *)
Theorem Block_getattr_variable (rest name : string) (body : dict) :
  Block_getattr ("variable." ++ rest) body name =
    Ok (VInterp ("var." ++ rest ++ "." ++ name))
  /\ Block_getattr "variable" body name = Ok (VInterp ("var." ++ name)).
Proof.
  split; [|reflexivity].
  unfold Block_getattr.
  change ("variable." ++ rest) with ("variable" ++ String Str.dot rest).
  rewrite StrFacts.split_app_sep by reflexivity.
  cbn [String.eqb Ascii.eqb Bool.eqb].
  change (Str.join "." ("var" :: Str.split Str.dot rest ++ [name]))
    with (Str.join "." (("var" :: Str.split Str.dot rest) ++ [name])).
  rewrite StrFacts.join_snoc by discriminate.
  destruct (Str.split Str.dot rest) as [|seg segs] eqn:Hs.
  - exfalso. exact (StrFacts.split_not_nil _ _ Hs).
  - change (Str.join "." ("var" :: seg :: segs))
      with ("var." ++ Str.join "." (seg :: segs)).
    rewrite <- Hs.
    pose proof (StrFacts.join_split Str.dot rest) as Hjoin.
    change (String Str.dot "") with "." in Hjoin. rewrite Hjoin.
    reflexivity.
Qed.

(** X4: an attribute access raises [IndexError] exactly on a block whose
    whole path is [provider]: there is no type segment to return. *)
Theorem Block_getattr_IndexError (path : string) (body : dict) (name : string) :
  Block_getattr path body name = Raise IndexError <-> path = "provider".
Proof.
  split.
  - unfold Block_getattr.
    destruct (Str.split Str.dot path) as [|p0 rest] eqn:Hs.
    + intros _. exfalso. exact (StrFacts.split_not_nil _ _ Hs).
    + destruct (String.eqb p0 "resource"); [discriminate|].
      destruct (String.eqb p0 "variable"); [discriminate|].
      destruct (String.eqb_spec p0 "provider") as [->|]; [|discriminate].
      destruct rest as [|p1 rest].
      * intros _. now apply (StrMore.split_single Str.dot).
      * destruct (truthy _); [|discriminate].
        destruct (py_str _); discriminate.
  - intros ->. unfold Block_getattr. simpl.
    now destruct (truthy _).
Qed.

(** X5: on a provider block the type is the second segment of the path,
    whatever follows it; an alias that is a non-empty string is appended
    to it, an alias that is absent or false (empty, [None], zero) is
    ignored; the attribute name plays no part. *)
Theorem Block_getattr_provider_alias (path t : string) (more : list string)
  (body : dict) (name : string) :
  Str.split Str.dot path = "provider" :: t :: more ->
  (forall a, Dict.get "alias" body = Some (VStr a) -> a <> "" ->
     Block_getattr path body name = Ok (VStr (t ++ "." ++ a)))
  /\ (forall a, Dict.get "alias" body = Some a -> truthy a = false ->
        Block_getattr path body name = Ok (VStr t))
  /\ (Dict.get "alias" body = None ->
      Block_getattr path body name = Ok (VStr t))
  /\ (forall name', Block_getattr path body name' = Block_getattr path body name).
Proof.
  intros Hs. unfold Block_getattr. rewrite Hs.
  cbn [String.eqb Ascii.eqb Bool.eqb].
  repeat split.
  - intros a -> Ha. simpl.
    destruct (String.eqb_spec a ""); [contradiction|reflexivity].
  - intros a -> Ha. now rewrite Ha.
  - intros ->. reflexivity.
Qed.

Lemma Block_getattr_provider_alias_witness :
  Block_getattr "provider.google.beta" [("alias", VStr "west")] "project" =
    Ok (VStr "google.west")
  /\ Block_getattr "provider.google.beta" [("alias", VStr "")] "project" =
     Ok (VStr "google")
  /\ Block_getattr "provider.google.beta" [("region", VStr "eu")] "project" =
     Ok (VStr "google").
Proof.
  pose proof (Block_getattr_provider_alias "provider.google.beta") as H.
  split; [|split].
  - apply (proj1 (H "google" ["beta"] [("alias", VStr "west")] "project" eq_refl)
             "west" eq_refl).
    discriminate.
  - apply (proj1 (proj2 (H "google" ["beta"] [("alias", VStr "")] "project"
                           eq_refl))
             (VStr "") eq_refl eq_refl).
  - apply (proj1 (proj2 (proj2 (H "google" ["beta"] [("region", VStr "eu")]
                                  "project" eq_refl)))
             eq_refl).
Defined.

(** ** More on [Block.__iter__], [Interpolated] and [Collection.__iter__] *)

(** X6: whatever the path and the body, flattening a Block gives exactly
    one item, keyed by the first segment of the path. *)
Theorem Block_iter_single_root (path : string) (body : dict) :
  exists inner, Block_iter path body = Some [(first_segment path, inner)].
Proof.
  pose proof (Block_iter_total path body) as Ht. unfold first_segment.
  destruct (Str.split Str.dot path) as [|p0 rest] eqn:Hs.
  - exfalso. exact (StrFacts.split_not_nil _ _ Hs).
  - simpl in Ht.
    destruct (Block_iter path body) as [items|]; simpl in Ht; [|discriminate].
    inversion Ht; subst. eexists. reflexivity.
Qed.

Lemma join_app (sep : string) (l1 l2 : list string) :
  l1 <> [] -> l2 <> [] ->
  Str.join sep (l1 ++ l2) = Str.join sep l1 ++ sep ++ Str.join sep l2.
Proof.
  induction l1 as [|a l1 IH]; [congruence|]. intros _ H2.
  destruct l1 as [|b l1].
  - simpl. destruct l2; [congruence|reflexivity].
  - change (Str.join sep ((a :: b :: l1) ++ l2))
      with (a ++ sep ++ Str.join sep ((b :: l1) ++ l2)).
    rewrite IH by (discriminate || assumption).
    change (Str.join sep (a :: b :: l1)) with (a ++ sep ++ Str.join sep (b :: l1)).
    now rewrite !StrFacts.append_assoc.
Qed.

Lemma Interpolated_chain_join_all (attrs : list string) : forall v,
  Interpolated_chain v attrs = Str.join "." (v :: attrs).
Proof.
  unfold Interpolated_chain.
  induction attrs as [|a attrs IH]; intros v; [reflexivity|].
  simpl fold_left. rewrite IH.
  destruct attrs as [|b attrs]; [reflexivity|].
  transitivity ((v ++ "." ++ a) ++ "." ++ Str.join "." (b :: attrs));
    [reflexivity|].
  transitivity (v ++ "." ++ a ++ "." ++ Str.join "." (b :: attrs));
    [|reflexivity].
  now rewrite !StrFacts.append_assoc.
Qed.

(** X7: chained attribute accesses on a reference append one segment
    each: the path of the result is the path of the first reference and
    the attribute names joined by dots, and it splits into the segments of
    the first reference followed by the names. *)
Theorem Interpolated_chain_segments (v : string) (attrs : list string) :
  Forall (fun a => Str.contains Str.dot a = false) attrs ->
  Interpolated_chain v attrs = Str.join "." (v :: attrs)
  /\ Str.split Str.dot (Interpolated_chain v attrs) =
     (Str.split Str.dot v ++ attrs)%list.
Proof.
  intros Hattrs. split; [apply Interpolated_chain_join_all|].
  rewrite Interpolated_chain_join_all.
  pose proof (StrFacts.join_split Str.dot v) as Hv.
  change (String Str.dot "") with "." in Hv.
  destruct attrs as [|a attrs].
  - simpl. now rewrite app_nil_r.
  - replace (Str.join "." (v :: a :: attrs))
      with (Str.join "." (Str.split Str.dot v ++ a :: attrs)).
    + change "." with (String Str.dot "").
      apply StrMore.split_join.
      * destruct (Str.split Str.dot v); discriminate.
      * apply Forall_app. split; [apply StrMore.split_segments|exact Hattrs].
    + rewrite join_app; [|apply StrFacts.split_not_nil|discriminate].
      now rewrite Hv.
Qed.

Lemma Interpolated_chain_segments_witness :
  Interpolated_chain "aws_iam_user.peanut" ["tags"; "Name"] =
    "aws_iam_user.peanut.tags.Name"
  /\ Str.split Str.dot (Interpolated_chain "aws_iam_user.peanut" ["tags"; "Name"]) =
     ["aws_iam_user"; "peanut"; "tags"; "Name"].
Proof.
  apply (Interpolated_chain_segments "aws_iam_user.peanut"
           (attrs := ["tags"; "Name"])).
  repeat constructor.
Defined.

(** X8: two references compare equal exactly when they have the same
    path; a reference equals a string exactly when the string is its
    textual form, and it equals nothing else. *)
Theorem Interpolated_eq_cases (v : string) (other : value) :
  Interpolated_eq v other = true <->
  other = VInterp v \/ other = VStr (Interpolated_str v).
Proof.
  unfold Interpolated_eq. destruct other; try (split; [discriminate|]);
    try (intros [H|H]; discriminate).
  - rewrite String.eqb_eq. split.
    + intros <-. now right.
    + intros [H|H]; [discriminate|now inversion H].
  - rewrite String.eqb_eq. unfold Interpolated_str. split.
    + intros H. left. f_equal.
      apply (StrMore.append_cancel_l "${") in H.
      now apply (StrMore.append_cancel_r "}") in H.
    + intros [H|H]; [now inversion H|discriminate].
Qed.

(** X9: iterating a Collection is a flattening: a Collection made of the
    items it gives iterates to the same items, and a Collection holding
    only one nested Collection iterates as the nested one does, whatever
    the outputs of either. *)
Theorem Collection_iter_idempotent (blocks : list value) (outs outs' : dict) :
  Collection_iter (Collection_iter blocks) = Collection_iter blocks
  /\ Collection_iter [VColl (Collection_iter blocks) outs] =
     Collection_iter blocks
  /\ Collection_iter [VColl [VColl blocks outs] outs'] = Collection_iter blocks.
Proof.
  assert (Hflat : Collection_iter (Collection_iter blocks) =
                  Collection_iter blocks)
    by apply Collection_iter_plain_list, Collection_iter_no_collection.
  repeat split.
  - exact Hflat.
  - rewrite Collection_iter_nested. simpl. now rewrite app_nil_r.
  - rewrite !Collection_iter_nested. simpl. now rewrite !app_nil_r.
Qed.

(** ** The outputs of a collection *)

Lemma assign_items_keys (d : dict) : forall (m : dict) (k : string),
  In k (Dict.keys (assign_items m d)) <->
  In k (Dict.keys m) \/ In k (Dict.keys d).
Proof.
  unfold assign_items.
  induction d as [|[k0 v0] rest IH]; simpl; intros m k; [tauto|].
  rewrite IH, DictFacts.keys_set.
  destruct (existsb (String.eqb k0) (Dict.keys m)) eqn:Hex.
  - apply DictFacts.existsb_eqb_In in Hex. split.
    + intros [H|H]; auto.
    + intros [H|[<-|H]]; auto.
  - rewrite in_app_iff. simpl. tauto.
Qed.

Section CollectOutputs.
Context {E : Externals}.
Variable G : Type.
Variable send : G -> value -> store -> sent G store.

Implicit Types (c : collecting) (g : logged G).

Lemma collect_add_keeps_outputs (var : variable) :
  preserves Collecting.outputs (collect_add var).
Proof.
  intros c a c'. unfold collect_add, bind, get_state. simpl.
  destruct (store_add (Collecting.var_store c) var true); simpl; [|discriminate].
  unfold put_state. intros H. inversion H; subst. reflexivity.
Qed.

Lemma for_each_set_outputs (outs : list (string * value)) : forall c,
  for_each outs
    (fun output =>
       modify (fun c0 =>
         set_outputs
           (Dict.set (fst output) (snd output) (Collecting.outputs c0)) c0)) c =
  Return tt (set_outputs (assign_items (Collecting.outputs c) outs) c).
Proof.
  induction outs as [|o rest IH]; simpl; intros c.
  - destruct c; reflexivity.
  - unfold bind, modify. rewrite IH. reflexivity.
Qed.

(** A block adds its outputs to the recorded ones, whether or not it is
    kept as an ordinary block. *)
Lemma collect_block_outputs (func_name : string) (b : value) c u c' :
  collect_block func_name b c = Return u c' ->
  Collecting.outputs c' =
  assign_items (Collecting.outputs c) (fst (get_outputs_from_block b)).
Proof.
  unfold collect_block. unfold bind at 1.
  destruct (for_drained (get_variables_from_block b func_name) collect_add c)
    as [u1 c1|e c1] eqn:Hvars; [|discriminate].
  assert (H1 : Collecting.outputs c1 = Collecting.outputs c).
  { eapply (preserves_for_drained (part := Collecting.outputs));
      [|exact Hvars].
    intros var. apply collect_add_keeps_outputs. }
  cbv beta. unfold bind at 1. unfold for_drained at 1. unfold bind at 1.
  rewrite for_each_set_outputs.
  destruct (snd (get_outputs_from_block b)); [discriminate|].
  unfold ret at 1.
  destruct (fst (get_variables_from_block b func_name)) as [|v vs];
    [destruct (fst (get_outputs_from_block b)) as [|o os]|];
    unfold modify, ret; intros H; inversion H; subst; simpl; congruence.
Qed.

Lemma for_each_collect_outputs (func_name : string) (bs : list value) :
  forall c u c',
    for_each bs (collect_block func_name) c = Return u c' ->
    Collecting.outputs c' = recorded_outputs bs (Collecting.outputs c).
Proof.
  unfold recorded_outputs.
  induction bs as [|b rest IH]; simpl; intros c u c' Hrun.
  - inversion Hrun; subst. reflexivity.
  - unfold bind in Hrun.
    destruct (collect_block func_name b c) as [u1 c1|e c1] eqn:Hb;
      [|discriminate].
    rewrite (IH _ _ _ Hrun). now rewrite (collect_block_outputs _ _ _ Hb).
Qed.

Lemma recorded_outputs_app (bs1 bs2 : list value) (outs : dict) :
  recorded_outputs (bs1 ++ bs2) outs =
  recorded_outputs bs2 (recorded_outputs bs1 outs).
Proof. unfold recorded_outputs. apply fold_left_app. Qed.

Lemma collect_loop_outputs (fuel : nat) : forall func_name g v c g' c',
  collect_loop (send_logged send) fuel func_name g v c =
    Some (Return tt (g', c')) ->
  exists ys,
    yielded_log g' = (yielded_log g ++ ys)%list
    /\ Collecting.outputs c' =
       recorded_outputs (unwrapped ys) (Collecting.outputs c).
Proof.
  induction fuel as [|fuel IH]; simpl; intros func_name g v c g' c' Hrun;
    [discriminate|].
  unfold send_logged in Hrun.
  destruct (send (inner g) v (Collecting.var_store c)) as [y g1 st|g1 st|e g1 st].
  - unfold bind in Hrun.
    destruct (unwrap_yielded y) as [bs|e] eqn:Hunwrap; simpl in Hrun;
      [|discriminate].
    destruct (for_each bs (collect_block func_name) (set_var_store st c))
      as [u c1|e c1] eqn:Hloop; [|discriminate].
    apply IH in Hrun. destruct Hrun as (ys & Hlog & Houts).
    exists (y :: ys). simpl in Hlog. split.
    + rewrite Hlog, <- app_assoc. reflexivity.
    + rewrite Houts, (for_each_collect_outputs _ _ _ Hloop). simpl.
      unfold unwrapped. simpl. rewrite Hunwrap.
      now rewrite recorded_outputs_app.
  - inversion Hrun; subst. exists []. simpl.
    now rewrite app_nil_r.
  - discriminate.
Qed.

(** A collection that was built comes from a run of the observed
    producer. *)
Lemma collect_built (fuel : nat) (func_name : string) (g0 : G)
  (kwargs : dict) (bs : list value) (outs : dict) :
  collect send fuel func_name g0 kwargs = Some (Ok (VColl bs outs)) ->
  exists st0 g' c',
    load_kwargs kwargs VariableStore_new = Return tt st0
    /\ collect_loop (send_logged send) fuel func_name (start_logged g0) VNone
         (Collecting.Make st0 [] []) = Some (Return tt (g', c'))
    /\ bs = Collecting.blocks c' /\ outs = Collecting.outputs c'.
Proof.
  unfold collect. intros Hcollect.
  destruct (load_kwargs kwargs VariableStore_new) as [[] st0|e st0];
    [|discriminate].
  pose proof (collect_loop_logged send fuel func_name (start_logged g0) VNone
                (Collecting.Make st0 [] [])) as Hlog.
  simpl in Hlog. rewrite Hlog in Hcollect.
  destruct (collect_loop (send_logged send) fuel func_name (start_logged g0)
              VNone (Collecting.Make st0 [] []))
    as [[[] [g' c']|e [g' c']]|] eqn:Hloop; simpl in Hcollect;
    [|discriminate|discriminate].
  inversion Hcollect; subst. exists st0, g', c'. auto.
Qed.

Lemma recorded_outputs_wf (bs : list value) : forall outs,
  Dict.wf outs -> Dict.wf (recorded_outputs bs outs).
Proof.
  unfold recorded_outputs.
  induction bs as [|b rest IH]; simpl; intros outs Hwf; [exact Hwf|].
  apply IH. now apply assign_items_wf.
Qed.

Lemma recorded_outputs_keys (bs : list value) : forall outs k,
  In k (Dict.keys (recorded_outputs bs outs)) <->
  In k (Dict.keys outs)
  \/ exists b, In b bs /\ In k (Dict.keys (fst (get_outputs_from_block b))).
Proof.
  unfold recorded_outputs.
  induction bs as [|b rest IH]; simpl; intros outs k.
  - split; [tauto|]. intros [H|(b & [] & _)]. exact H.
  - rewrite IH, assign_items_keys. split.
    + intros [[H|H]|(b' & Hin & Hk)]; eauto.
    + intros [H|(b' & [<-|Hin] & Hk)]; eauto.
Qed.

(** X10: the outputs of a Collection built by [collect] are the outputs
    of the unwrapped blocks, recorded in emission order, a later output
    replacing an earlier one of the same name; every name is there once,
    and a name is an output exactly when some emitted block defines it. *)
Theorem collect_outputs_recorded (fuel : nat) (func_name : string) (g0 : G)
  (kwargs : dict) (bs : list value) (outs : dict) :
  collect send fuel func_name g0 kwargs = Some (Ok (VColl bs outs)) ->
  exists st0 g' c',
    load_kwargs kwargs VariableStore_new = Return tt st0
    /\ collect_loop (send_logged send) fuel func_name (start_logged g0) VNone
         (Collecting.Make st0 [] []) = Some (Return tt (g', c'))
    /\ outs = recorded_outputs (unwrapped (yielded_log g')) []
    /\ Dict.wf outs
    /\ forall k,
         In k (Dict.keys outs) <->
         exists b, In b (unwrapped (yielded_log g'))
                   /\ In k (Dict.keys (fst (get_outputs_from_block b))).
Proof.
  intros Hcollect.
  destruct (collect_built _ _ _ _ Hcollect)
    as (st0 & g' & c' & Hload & Hloop & _ & ->).
  destruct (collect_loop_outputs _ _ _ _ _ Hloop) as (ys & Hys & Houts).
  simpl in Hys, Houts. subst ys.
  exists st0, g', c'. repeat split; try assumption.
  - rewrite Houts. apply recorded_outputs_wf. constructor.
  - rewrite Houts, recorded_outputs_keys. intros [[]|H]. exact H.
  - rewrite Houts, recorded_outputs_keys. auto.
Qed.
End CollectOutputs.

Lemma collect_outputs_recorded_witness :
  collect (E := Demo.E) send_script 10 "group" Demo.nested_yields [] =
    Some (Ok (VColl [Demo.user_block "peanut"; Demo.user_block "cornelius";
                     Demo.user_block "walnut"; Demo.group_block]
                [("group", VStr "dogs")]))
  /\ Dict.wf [("group", VStr "dogs")].
Proof.
  assert (Hrun : collect (E := Demo.E) send_script 10 "group"
                   Demo.nested_yields [] =
                 Some (Ok (VColl [Demo.user_block "peanut";
                                  Demo.user_block "cornelius";
                                  Demo.user_block "walnut"; Demo.group_block]
                             [("group", VStr "dogs")])))
    by (vm_compute; reflexivity).
  split; [exact Hrun|].
  destruct (collect_outputs_recorded (E := Demo.E) send_script 10 "group"
              Demo.nested_yields [] Hrun)
    as (st0 & g' & c' & _ & _ & _ & Hwf & _).
  exact Hwf.
Defined.

(** ** Values that cannot be unwrapped *)

Lemma Block_iter_some (path : string) (body : dict) :
  Block_iter path body <> None.
Proof.
  pose proof (Block_iter_total path body) as Ht.
  destruct (Block_iter path body); [discriminate|discriminate Ht].
Qed.

Lemma unwrap_yielded_raises (v : value) (e : exn) :
  unwrap_yielded v = Raise e -> not_iterable v = true /\ e = TypeError.
Proof.
  destruct v; simpl; try discriminate;
    try (intros H; inversion H; auto).
  destruct (Block_iter path body) eqn:Hb; [discriminate|].
  exfalso. exact (Block_iter_some _ _ Hb).
Qed.

Lemma unwrap_yielded_iterable (v : value) :
  not_iterable v = false -> exists bs, unwrap_yielded v = Ok bs.
Proof.
  intros Hv. destruct (unwrap_yielded v) as [bs|e] eqn:Hu; [eauto|].
  apply unwrap_yielded_raises in Hu. destruct Hu as [Hu _]. congruence.
Qed.

Section NotIterable.
Context {E : Externals}.
Variable G : Type.
Variable send_c : G -> value -> store -> sent G store.
Variable send_r : G -> value -> renderer G -> sent G (renderer G).

(** X11: [unwrap_yielded] fails exactly on [None], a boolean, a number
    and a reference, and then with [TypeError].  A producer that yields
    such a value (a bare [yield], say) makes [collect] raise it, and makes
    [run] raise it with the yielded value already kept as the value to
    send next and no block appended. *)
Theorem unwrap_yielded_TypeError (v : value) :
  ((exists e, unwrap_yielded v = Raise e) <-> not_iterable v = true)
  /\ (forall e, unwrap_yielded v = Raise e -> e = TypeError)
  /\ (forall fuel func_name g sent_value c g' st,
        not_iterable v = true ->
        send_c g sent_value (Collecting.var_store c) = Yielded v g' st ->
        collect_loop send_c (S fuel) func_name g sent_value c =
        Some (Throw TypeError (g', set_var_store st c)))
  /\ (forall (j : job G) w g' w',
        not_iterable v = true ->
        send_r (RenderJob.gen j) (RenderJob.return_value j) w = Yielded v g' w' ->
        RenderJob_run send_r (j, w) =
        Throw TypeError (set_return_value v (set_gen g' j), w')).
Proof.
  assert (Hfail : not_iterable v = true -> unwrap_yielded v = Raise TypeError).
  { destruct v; simpl; intros H; try reflexivity; discriminate. }
  split; [|split; [|split]].
  - split.
    + intros (e & He). now apply unwrap_yielded_raises in He.
    + intros Hv. exists TypeError. auto.
  - intros e He. now apply unwrap_yielded_raises in He.
  - intros fuel func_name g sent_value c g' st Hv Hsend. simpl.
    rewrite Hsend. unfold bind. now rewrite (Hfail Hv).
  - intros j w g' w' Hv Hsend. unfold RenderJob_run. simpl.
    rewrite Hsend. unfold bind, put_state. now rewrite (Hfail Hv).
Qed.
End NotIterable.

Lemma unwrap_yielded_TypeError_witness :
  collect_loop (E := Demo.E) send_script 3 "f" [VNone] VNone
    (Collecting.Make Demo.empty_store [] []) =
    Some (Throw TypeError ([], Collecting.Make Demo.empty_store [] []))
  /\ RenderJob_run (E := Demo.E) send_script
       (RenderJob_init "a.tf.py" "a.tf.json" "a.tf.json" [VInt 1],
        Demo.world_of []) =
     Throw TypeError
       (RenderJob.Make "a.tf.py" [] false "a.tf.json" "a.tf.json" (VInt 1) [],
        Demo.world_of []).
Proof.
  split.
  - apply (proj1 (proj2 (proj2 (unwrap_yielded_TypeError (E := Demo.E)
                                  send_script send_script VNone)))
             2 "f" [VNone] VNone (Collecting.Make Demo.empty_store [] [])
             [] Demo.empty_store);
      reflexivity.
  - apply (proj2 (proj2 (proj2 (unwrap_yielded_TypeError (E := Demo.E)
                                  (send_script (W := @store Demo.E))
                                  send_script (VInt 1))))
             (RenderJob_init "a.tf.py" "a.tf.json" "a.tf.json" [VInt 1])
             (Demo.world_of []) [] (Demo.world_of []));
      reflexivity.
Defined.

(** ** What [run] leaves alone *)

Section RunKeeps.
Context {E : Externals}.
Variable G : Type.
Variable send : G -> value -> renderer G -> sent G (renderer G).

(** X12: a [run] that returns, with [True] or with [False], leaves the
    path, the output path, the output name and the [done] flag of the job
    as they were (the flag is not set when the producer stops), and only
    adds to the end of the blocks. *)
Theorem RenderJob_run_keeps_fields (j : job G) (w : renderer G) (b : bool)
  (j' : job G) (w' : renderer G) :
  RenderJob_run send (j, w) = Return b (j', w') ->
  RenderJob.path j' = RenderJob.path j
  /\ RenderJob.output_path j' = RenderJob.output_path j
  /\ RenderJob.output_name j' = RenderJob.output_name j
  /\ RenderJob.done j' = RenderJob.done j
  /\ exists bs, RenderJob.blocks j' = (RenderJob.blocks j ++ bs)%list.
Proof.
  intros Hrun.
  destruct (send (RenderJob.gen j) (RenderJob.return_value j) w)
    as [y g1 w1|g1 w1|e g1 w1] eqn:Hsend.
  - destruct (RenderJob_run_yielded _ _ _ Hsend Hrun) as (_ & bs & _ & ->).
    destruct (append_blocks_fields bs (set_return_value y (set_gen g1 j)))
      as (H1 & _ & _ & H4 & H5 & H6 & H7).
    simpl in *. repeat split; try assumption. eauto.
  - destruct (RenderJob_run_stopped _ _ _ Hsend Hrun) as (_ & ->).
    simpl. repeat split. exists []. now rewrite app_nil_r.
  - exfalso. exact (RenderJob_run_raised _ _ _ Hsend Hrun).
Qed.
End RunKeeps.

Lemma RenderJob_run_keeps_fields_witness :
  exists j' w',
    RenderJob_run (E := Demo.E) send_script (Demo.finished_job, Demo.world_of []) =
      Return true (j', w')
    /\ RenderJob.done j' = false.
Proof.
  do 2 eexists. split; [vm_compute; reflexivity|].
  refine (proj1 (proj2 (proj2 (proj2
            (RenderJob_run_keeps_fields (E := Demo.E) send_script
               Demo.finished_job (Demo.world_of []) (b := true) _))))).
  vm_compute. reflexivity.
Defined.

(** ** Variable-value files *)

Lemma value_items_ok (v : value) (d : dict) :
  value_items v = Ok d <-> v = VDict d.
Proof.
  split; [|intros ->; reflexivity].
  destruct v; simpl; try discriminate.
  - intros H. now inversion H.
  - destruct (Block_getattr path body "items"); discriminate.
  - destruct (Collection_getattr outputs "items"); discriminate.
Qed.

Lemma value_items_is_dict (v : value) :
  (exists d, value_items v = Ok d) <-> is_dict v = true.
Proof.
  split.
  - intros (d & Hd). apply value_items_ok in Hd. now subst.
  - destruct v; try discriminate. intros _. eexists. reflexivity.
Qed.

Lemma dicts_of_blocks (bs : list value) :
  Forall (fun b => is_dict b = true) bs -> exists ds, bs = map VDict ds.
Proof.
  induction 1 as [|b rest Hb Hrest (ds & ->)]; [exists []; reflexivity|].
  destruct b; try discriminate. exists (d :: ds). reflexivity.
Qed.

Lemma merge_blocks_dicts (bs : list value) : forall (acc : result dict) m,
  fold_left
    (fun acc block =>
       merged <- acc ;;
       items <- value_items block ;;
       Ok (fold_left (fun m' kv => Dict.set (fst kv) (snd kv) m') items merged))
    bs acc = Ok m ->
  Forall (fun b => is_dict b = true) bs.
Proof.
  induction bs as [|b rest IH]; simpl; intros acc m Hfold; [constructor|].
  constructor; [|eapply IH; exact Hfold].
  destruct acc as [merged|e]; simpl in Hfold.
  - destruct (value_items b) as [items|e] eqn:Hitems; simpl in Hfold.
    + apply value_items_is_dict. eauto.
    + rewrite (fold_result_raise
                 (fun merged0 block =>
                    items <- value_items block ;;
                    Ok (fold_left (fun m' kv => Dict.set (fst kv) (snd kv) m')
                          items merged0))) in Hfold.
      discriminate.
  - rewrite (fold_result_raise
               (fun merged0 block =>
                  items <- value_items block ;;
                  Ok (fold_left (fun m' kv => Dict.set (fst kv) (snd kv) m')
                        items merged0))) in Hfold.
    discriminate.
Qed.

Lemma dicts_or_not (bs : list value) :
  Forall (fun b => is_dict b = true) bs
  \/ Exists (fun b => is_dict b = false) bs.
Proof.
  induction bs as [|b rest [IH|IH]]; [left; constructor| |right; now constructor].
  destruct (is_dict b) eqn:Hb; [left|right]; now constructor.
Qed.

(** X13: the contents of a variable-value file can be assembled exactly
    when every collected block is a mapping: one block that is not (a
    Block object taken from a yielded list, say) makes [contents] raise. *)
Theorem RenderJob_contents_tfvars_mappings (G : Type) (j : RenderJob.t G) :
  Str.endswith (RenderJob.output_name j) ".tfvars.json" = true ->
  ((exists merged, RenderJob_contents j = Ok (VDict merged)) <->
   Forall (fun b => is_dict b = true) (RenderJob.blocks j))
  /\ ((exists e, RenderJob_contents j = Raise e) <->
      Exists (fun b => is_dict b = false) (RenderJob.blocks j)).
Proof.
  intros Htf.
  assert (Hok : (exists merged, RenderJob_contents j = Ok (VDict merged)) <->
                Forall (fun b => is_dict b = true) (RenderJob.blocks j)).
  { unfold RenderJob_contents. rewrite Htf. split.
    - intros (merged & Hc).
      destruct (fold_left _ (RenderJob.blocks j) (Ok [])) as [m|e] eqn:Hfold;
        [|discriminate].
      eapply merge_blocks_dicts. exact Hfold.
    - intros Hall. destruct (dicts_of_blocks Hall) as (ds & ->).
      rewrite merge_blocks_ok. eexists. reflexivity. }
  split; [exact Hok|].
  destruct (dicts_or_not (RenderJob.blocks j)) as [Hall|Hex].
  - split.
    + intros (e & He). apply Hok in Hall. destruct Hall as (merged & Hm).
      congruence.
    + intros Hex. exfalso.
      apply Exists_exists in Hex. destruct Hex as (b & Hin & Hb).
      rewrite Forall_forall in Hall. specialize (Hall b Hin). congruence.
  - split; [intros _; exact Hex|]. intros _.
    destruct (RenderJob_contents j) as [c|e] eqn:Hc; [|eauto].
    exfalso.
    assert (Hall : Forall (fun b => is_dict b = true) (RenderJob.blocks j)).
    { apply Hok. unfold RenderJob_contents in Hc. rewrite Htf in Hc.
      destruct (fold_left _ (RenderJob.blocks j) (Ok [])); simpl in Hc;
        inversion Hc; subst. eexists. reflexivity. }
    apply Exists_exists in Hex. destruct Hex as (b & Hin & Hb).
    rewrite Forall_forall in Hall. specialize (Hall b Hin). congruence.
Qed.

Lemma RenderJob_contents_tfvars_mappings_witness :
  (exists e,
     RenderJob_contents
       (RenderJob.Make "x.tfvars.py" tt false "x.tfvars.json" "x.tfvars.json"
          VNone [VDict [("a", VInt 1)]; Block "variable.a" None]) = Raise e)
  /\ exists merged,
       RenderJob_contents
         (RenderJob.Make "x.tfvars.py" tt false "x.tfvars.json" "x.tfvars.json"
            VNone [VDict [("a", VInt 1)]]) = Ok (VDict merged).
Proof.
  split.
  - apply (proj2 (RenderJob_contents_tfvars_mappings
                    (RenderJob.Make "x.tfvars.py" tt false "x.tfvars.json"
                       "x.tfvars.json" VNone
                       [VDict [("a", VInt 1)]; Block "variable.a" None])
                    eq_refl)).
    apply Exists_cons_tl. apply Exists_cons_hd. reflexivity.
  - apply (proj1 (RenderJob_contents_tfvars_mappings
                    (RenderJob.Make "x.tfvars.py" tt false "x.tfvars.json"
                       "x.tfvars.json" VNone [VDict [("a", VInt 1)]])
                    eq_refl)).
    repeat constructor.
Defined.

Section TfvarsNotWaited.
Context {E : Externals}.
Variable G : Type.
Variable send : G -> value -> renderer G -> sent G (renderer G).

Lemma classify_blocks_not_waited (path output_name : string) (bs : list value)
  (st : store) :
  Str.endswith output_name ".tfvars.json" = true ->
  tfvars_waiting_for st output_name = false ->
  classify_blocks path output_name bs st = Ok st.
Proof.
  intros Htf Hwait. unfold classify_blocks.
  induction bs as [|b rest IH]; simpl; [reflexivity|].
  unfold classify_block at 2. rewrite Htf, Hwait. exact IH.
Qed.

(** X14: while the store does not wait for a variable-value file, a step
    of its job leaves the renderer exactly as the producer left it: no
    value reaches the store, and every unwrapped block is recorded,
    mapping or not. *)
Theorem RenderJob_run_tfvars_not_waited (j : job G) (w : renderer G)
  (y : value) (g : G) (w1 : renderer G) (bs : list value) :
  send (RenderJob.gen j) (RenderJob.return_value j) w = Yielded y g w1 ->
  unwrap_yielded y = Ok bs ->
  Str.endswith (RenderJob.output_name j) ".tfvars.json" = true ->
  tfvars_waiting_for (Renderer.variables w1) (RenderJob.output_name j) = false ->
  exists j',
    RenderJob_run send (j, w) = Return false (j', w1)
    /\ RenderJob.blocks j' = (RenderJob.blocks j ++ bs)%list
    /\ RenderJob.return_value j' = y.
Proof.
  intros Hsend Hunwrap Htf Hwait.
  pose (j1 := set_return_value y (set_gen g j)).
  exists (fold_left (fun acc b => append_job_block b acc) bs j1).
  destruct (append_blocks_fields bs j1) as (H1 & H2 & _).
  repeat split; try assumption.
  unfold RenderJob_run. simpl. rewrite Hsend.
  unfold bind at 1. unfold put_state at 1.
  unfold bind at 1. rewrite Hunwrap. simpl.
  unfold bind at 1. fold j1.
  rewrite (for_each_run_block bs j1 w1 (st' := Renderer.variables w1)).
  - destruct w1; reflexivity.
  - now apply classify_blocks_not_waited.
Qed.
End TfvarsNotWaited.

Lemma RenderJob_run_tfvars_not_waited_witness :
  exists j',
    RenderJob_run (E := Demo.E) send_script
      (RenderJob_init "x.tfvars.py" "x.tfvars.json" "x.tfvars.json"
         [VList [VStr "not a mapping"]], Demo.world_of []) =
      Return false (j', Demo.world_of [])
    /\ RenderJob.blocks j' = [VStr "not a mapping"]
    /\ RenderJob.return_value j' = VList [VStr "not a mapping"].
Proof.
  apply (RenderJob_run_tfvars_not_waited (E := Demo.E) send_script
           (RenderJob_init "x.tfvars.py" "x.tfvars.json" "x.tfvars.json"
              [VList [VStr "not a mapping"]])
           (Demo.world_of []) (g := []) (w1 := Demo.world_of []));
    reflexivity.
Defined.

(** ** [Renderer.render]: the results *)

Section RenderResults.
Variable G : Type.
Implicit Types (j : RenderJob.t G) (js : list (RenderJob.t G)).

Lemma render_results_from js : forall (acc : dict) results,
  fold_left
    (fun acc j =>
       results <- acc ;;
       contents <- RenderJob_contents j ;;
       Ok (Dict.set (RenderJob.output_path j) contents results))
    js (Ok acc) = Ok results ->
  (Dict.wf acc -> Dict.wf results)
  /\ (forall p,
        Dict.get p results =
        fold_left
          (fun found j =>
             if String.eqb p (RenderJob.output_path j) then
               match RenderJob_contents j with
               | Ok c => Some c
               | Raise _ => found
               end
             else found)
          js (Dict.get p acc))
  /\ (forall p,
        In p (Dict.keys results) <->
        In p (Dict.keys acc) \/ In p (map (@RenderJob.output_path G) js)).
Proof.
  induction js as [|j rest IH]; simpl; intros acc results Hfold.
  - inversion Hfold; subst. repeat split; tauto.
  - destruct (RenderJob_contents j) as [c|e] eqn:Hc; simpl in Hfold.
    + destruct (IH _ _ Hfold) as (Hwf & Hget & Hkeys).
      split; [|split].
      * intros Hacc. apply Hwf. now apply DictFacts.set_wf.
      * intros p. rewrite Hget.
        destruct (String.eqb_spec p (RenderJob.output_path j)) as [->|Hne].
        -- now rewrite DictFacts.get_set_same.
        -- now rewrite DictFacts.get_set_other.
      * intros p. rewrite Hkeys, DictFacts.keys_set.
        destruct (existsb (String.eqb (RenderJob.output_path j)) (Dict.keys acc))
          eqn:Hex.
        -- apply DictFacts.existsb_eqb_In in Hex. split.
           ++ intros [H|H]; auto.
           ++ intros [H|[<-|H]]; auto.
        -- rewrite in_app_iff. simpl. tauto.
    + rewrite (fold_result_raise
                 (fun results0 j0 =>
                    contents <- RenderJob_contents j0 ;;
                    Ok (Dict.set (RenderJob.output_path j0) contents results0)))
        in Hfold.
      discriminate.
Qed.

(** X15: the results of a render hold one entry for each output path of
    a completed job and no other; the entry of a path is the contents of
    the job that completed last among those writing to it. *)
Theorem render_results_last_wins js (results : dict) :
  render_results js = Ok results ->
  Dict.wf results
  /\ (forall p, Dict.get p results = last_contents p js)
  /\ (forall p, In p (Dict.keys results) <->
                In p (map (@RenderJob.output_path G) js)).
Proof.
  unfold render_results, last_contents. intros Hfold.
  destruct (render_results_from _ _ Hfold) as (Hwf & Hget & Hkeys).
  repeat split.
  - apply Hwf. constructor.
  - apply Hget.
  - intros H. apply Hkeys in H. destruct H as [[]|H]. exact H.
  - intros H. apply Hkeys. now right.
Qed.
End RenderResults.

Lemma render_results_last_wins_witness :
  exists results,
    render_results
      [RenderJob.Make "a.py" tt false "out.json" "out.json" VNone [VInt 1];
       RenderJob.Make "b.py" tt false "out.json" "out.json" VNone [VInt 2]] =
      Ok results
    /\ Dict.get "out.json" results = Some (VList [VInt 2]).
Proof.
  eexists. split; [vm_compute; reflexivity|].
  rewrite (proj1 (proj2 (render_results_last_wins
                           [RenderJob.Make "a.py" tt false "out.json" "out.json"
                              VNone [VInt 1];
                            RenderJob.Make "b.py" tt false "out.json" "out.json"
                              VNone [VInt 2]] eq_refl))).
  reflexivity.
Defined.

(** ** Producers that yield a fixed list of values *)

Section ScriptedCollect.
Context {E : Externals}.

Lemma collect_loop_script_fuel (func_name : string) (ys : list value) :
  forall fuel1 fuel2 v c,
    List.length ys < fuel1 -> List.length ys < fuel2 ->
    collect_loop send_script fuel1 func_name ys v c =
      collect_loop send_script fuel2 func_name ys v c
    /\ collect_loop send_script fuel1 func_name ys v c <> None.
Proof.
  induction ys as [|y rest IH]; intros [|fuel1] [|fuel2] v c H1 H2;
    simpl in H1, H2; try lia; simpl.
  - split; [reflexivity|discriminate].
  - destruct (bind _ _ _) as [u c1|e c1].
    + apply IH; lia.
    + split; [reflexivity|discriminate].
Qed.

(** X16: a producer that yields [n] values and then stops is resumed at
    most [n + 1] times by [collect]: with that many rounds the call has
    returned its Collection or raised, and more rounds change nothing. *)
Theorem collect_script_finishes (func_name : string) (ys : list value)
  (kwargs : dict) (fuel : nat) :
  List.length ys < fuel ->
  exists r,
    collect send_script fuel func_name ys kwargs = Some r
    /\ forall fuel', List.length ys < fuel' ->
         collect send_script fuel' func_name ys kwargs = Some r.
Proof.
  intros Hfuel. unfold collect.
  destruct (load_kwargs kwargs VariableStore_new) as [u st|e st].
  - destruct (collect_loop_script_fuel func_name ys VNone
                (Collecting.Make st [] []) Hfuel Hfuel) as (_ & Hsome).
    destruct (collect_loop send_script fuel func_name ys VNone
                (Collecting.Make st [] [])) as [o|] eqn:Hloop; [|congruence].
    assert (Hmore : forall fuel', List.length ys < fuel' ->
              collect_loop send_script fuel' func_name ys VNone
                (Collecting.Make st [] []) = Some o).
    { intros fuel' Hfuel'.
      destruct (collect_loop_script_fuel func_name ys VNone
                  (Collecting.Make st [] []) Hfuel' Hfuel) as (-> & _).
      exact Hloop. }
    destruct o as [u0 [g c]|e [g c]]; eexists; (split; [reflexivity|]);
      intros fuel' Hfuel'; now rewrite (Hmore fuel' Hfuel').
  - eexists. split; [reflexivity|]. intros fuel' _. reflexivity.
Qed.
End ScriptedCollect.

Lemma collect_script_finishes_witness :
  exists r,
    collect (E := Demo.E) send_script 6 "group" Demo.nested_yields [] = Some r
    /\ collect (E := Demo.E) send_script 100 "group" Demo.nested_yields [] =
       Some r.
Proof.
  destruct (collect_script_finishes (E := Demo.E) "group" Demo.nested_yields []
              (fuel := 6)) as (r & Hr & Hmore).
  - simpl. lia.
  - exists r. split; [exact Hr|]. apply Hmore. simpl. lia.
Defined.

Lemma last_cons {A : Type} (x : A) (l : list A) (d : A) :
  last (x :: l) d = last l x.
Proof.
  revert x d. induction l as [|y l IH]; intros x d; [reflexivity|].
  change (last (x :: y :: l) d) with (last (y :: l) d).
  now rewrite (IH y d), (IH y x).
Qed.

Section ScriptedJobs.
Context {E : Externals}.

(** The store takes every variable when changes are allowed, accepts
    every file, and reading the variables of a block does not raise. *)
Hypothesis store_add_total :
  forall st var, exists st', store_add st var true = Ok st'.
Hypothesis file_created_total :
  forall st file, exists st', file_created st file = Ok st'.
Hypothesis get_variables_total :
  forall b src, snd (get_variables_from_block b src) = None.

Implicit Types (j : job (list value)) (w : renderer (list value)).

Lemma add_all_total (vars : list variable) : forall st,
  exists st', add_all true vars st = Ok st'.
Proof.
  unfold add_all.
  induction vars as [|v vs IH]; simpl; intros st; [eauto|].
  destruct (store_add_total st v) as (st1 & ->). apply IH.
Qed.

Lemma classify_blocks_total (path output_name : string) (bs : list value) :
  Str.endswith output_name ".tfvars.json" = false ->
  forall st, exists st', classify_blocks path output_name bs st = Ok st'.
Proof.
  intros Htf. unfold classify_blocks.
  induction bs as [|b rest IH]; simpl; intros st; [eauto|].
  unfold classify_block at 2. rewrite Htf.
  destruct (add_all_total (fst (get_variables_from_block b path)) st)
    as (st1 & ->).
  simpl. rewrite get_variables_total. apply IH.
Qed.

Lemma fold_append_blocks (bs : list value) : forall j,
  fold_left (fun acc b => append_job_block b acc) bs j =
  RenderJob.Make (RenderJob.path j) (RenderJob.gen j) (RenderJob.done j)
    (RenderJob.output_path j) (RenderJob.output_name j)
    (RenderJob.return_value j) (RenderJob.blocks j ++ bs).
Proof.
  induction bs as [|b rest IH]; simpl; intros j.
  - destruct j; simpl. now rewrite app_nil_r.
  - rewrite IH. simpl. now rewrite <- app_assoc.
Qed.

(** A step of a job whose producer has a value left. *)
Lemma run_script_yield j w (y : value) (rest : list value) :
  RenderJob.gen j = y :: rest ->
  Str.endswith (RenderJob.output_name j) ".tfvars.json" = false ->
  not_iterable y = false ->
  exists st',
    RenderJob_run send_script (j, w) =
    Return false
      (RenderJob.Make (RenderJob.path j) rest (RenderJob.done j)
         (RenderJob.output_path j) (RenderJob.output_name j) y
         (RenderJob.blocks j ++ unwrapped [y]),
       set_variables st' w).
Proof.
  intros Hgen Htf Hy.
  destruct (unwrap_yielded_iterable _ Hy) as (bs & Hbs).
  pose (j1 := set_return_value y (set_gen rest j)).
  destruct (classify_blocks_total (RenderJob.path j1)
              (RenderJob.output_name j1) bs Htf (Renderer.variables w))
    as (st' & Hclass).
  exists st'. unfold RenderJob_run. simpl. rewrite Hgen. simpl.
  unfold bind at 1. unfold put_state at 1.
  unfold bind at 1. rewrite Hbs. simpl.
  unfold bind at 1. fold j1.
  rewrite (for_each_run_block bs j1 w Hclass).
  rewrite fold_append_blocks, app_nil_r. reflexivity.
Qed.

(** A step of a job whose producer has nothing left. *)
Lemma run_script_stop j w :
  RenderJob.gen j = [] ->
  exists st',
    RenderJob_run send_script (j, w) = Return true (j, set_variables st' w).
Proof.
  intros Hgen.
  destruct (file_created_total (Renderer.variables w) (RenderJob.output_name j))
    as (st' & Hfile).
  exists st'. unfold RenderJob_run. simpl. rewrite Hgen. simpl.
  rewrite Hfile. destruct j; simpl in *. now subst.
Qed.

Lemma finish_job_stopped j : RenderJob.gen j = [] -> finish_job j = j.
Proof.
  intros Hgen. unfold finish_job. rewrite Hgen. destruct j; simpl in *.
  subst. now rewrite app_nil_r.
Qed.

Lemma finish_job_step j (y : value) (rest : list value) :
  RenderJob.gen j = y :: rest ->
  finish_job
    (RenderJob.Make (RenderJob.path j) rest (RenderJob.done j)
       (RenderJob.output_path j) (RenderJob.output_name j) y
       (RenderJob.blocks j ++ unwrapped [y])) =
  finish_job j.
Proof.
  intros Hgen. unfold finish_job. simpl. rewrite Hgen, last_cons.
  unfold unwrapped. simpl. now rewrite app_nil_r, <- app_assoc.
Qed.

(** The job on top of the stack is run to its end before any other. *)
Lemma process_jobs_top (ys : list value) : forall j w front k,
  RenderJob.gen j = ys ->
  plain_job j ->
  Renderer.jobs w = (front ++ [j])%list ->
  exists st',
    process_jobs send_script (S (List.length ys) + k) None w =
    process_jobs send_script k None
      (Renderer.Make st' front (Renderer.done w ++ [finish_job j])).
Proof.
  induction ys as [|y rest IH]; intros j w front k Hgen [Htf Hiter] Hjobs.
  - cbn [process_jobs List.length Nat.add].
    rewrite Hjobs, pop_last. cbn [until_reached].
    destruct (run_script_stop j
                (Renderer.Make (Renderer.variables w) front (Renderer.done w))
                Hgen) as (st' & Hrun).
    exists st'.
    match goal with
    | |- match ?r with _ => _ end = _ =>
        replace r with (Return (S := running (list value)) true
                          (j, set_variables st'
                                (Renderer.Make (Renderer.variables w) front
                                   (Renderer.done w))))
          by (symmetry; exact Hrun)
    end.
    simpl. now rewrite (finish_job_stopped _ Hgen).
  - cbn [process_jobs List.length Nat.add].
    rewrite Hjobs, pop_last. cbn [until_reached].
    rewrite Hgen in Hiter. inversion Hiter as [|? ? Hy Hrest]; subst.
    destruct (run_script_yield j
                (Renderer.Make (Renderer.variables w) front (Renderer.done w))
                Hgen Htf Hy) as (st1 & Hstep).
    match goal with
    | |- exists _, match ?r with _ => _ end = _ =>
        replace r
          with (Return (S := running (list value)) false
                  (RenderJob.Make (RenderJob.path j) rest (RenderJob.done j)
                     (RenderJob.output_path j) (RenderJob.output_name j) y
                     (RenderJob.blocks j ++ unwrapped [y]),
                   set_variables st1
                     (Renderer.Make (Renderer.variables w) front
                        (Renderer.done w))))
          by (symmetry; exact Hstep)
    end.
    cbn [set_variables Renderer.variables Renderer.jobs Renderer.done].
    edestruct (IH (RenderJob.Make (RenderJob.path j) rest (RenderJob.done j)
                     (RenderJob.output_path j) (RenderJob.output_name j) y
                     (RenderJob.blocks j ++ unwrapped [y]))
                 (Renderer.Make st1
                    (front ++ [RenderJob.Make (RenderJob.path j) rest
                                 (RenderJob.done j) (RenderJob.output_path j)
                                 (RenderJob.output_name j) y
                                 (RenderJob.blocks j ++ unwrapped [y])])
                    (Renderer.done w)) front k) as (st' & Hrun).
    + reflexivity.
    + split; assumption.
    + reflexivity.
    + exists st'. rewrite <- (finish_job_step _ Hgen). exact Hrun.
Qed.

Lemma resumptions_app (js1 js2 : list (job (list value))) :
  resumptions (js1 ++ js2) = resumptions js1 + resumptions js2.
Proof. unfold resumptions. now rewrite map_app, list_sum_app. Qed.

Lemma process_jobs_scripted_all (js : list (job (list value))) : forall w k,
  Renderer.jobs w = js ->
  Forall plain_job js ->
  exists st',
    process_jobs send_script (S (resumptions js + k)) None w =
    Some (Return tt
            (Renderer.Make st' []
               (Renderer.done w ++ rev (map finish_job js)))).
Proof.
  induction js as [|j js IH] using rev_ind; intros w k Hjobs Hplain.
  - exists (Renderer.variables w). cbn [process_jobs]. rewrite Hjobs.
    simpl. destruct w; simpl in *. subst. now rewrite app_nil_r.
  - apply Forall_app in Hplain. destruct Hplain as [Hjs Hj].
    inversion Hj as [|? ? Hpj _]; subst.
    destruct (process_jobs_top w js (S (resumptions js + k)) eq_refl Hpj Hjobs)
      as (st1 & Htop).
    destruct (IH (Renderer.Make st1 js (Renderer.done w ++ [finish_job j])) k
                eq_refl Hjs) as (st' & Hrest).
    exists st'.
    replace (S (resumptions (js ++ [j]) + k))
      with (S (List.length (RenderJob.gen j)) + S (resumptions js + k)).
    + etransitivity; [exact Htop|]. etransitivity; [exact Hrest|].
      cbn [Renderer.done].
      rewrite map_app, rev_app_distr, <- app_assoc. reflexivity.
    + rewrite resumptions_app.
      change (resumptions [j]) with (S (List.length (RenderJob.gen j)) + 0).
      lia.
Qed.

(** X17: jobs of definition files whose producers yield fixed values are
    completed in the reverse of the order they are pending in: the job
    pushed last is run to its end first.  With one round for each
    resumption and one more, [process_jobs] returns with no job pending,
    every producer exhausted and, in each job, all the blocks its values
    unwrap to, in order. *)
Theorem process_jobs_scripted w (fuel : nat) :
  Forall plain_job (Renderer.jobs w) ->
  resumptions (Renderer.jobs w) < fuel ->
  exists st',
    process_jobs send_script fuel None w =
    Some (Return tt
            (Renderer.Make st' []
               (Renderer.done w ++ rev (map finish_job (Renderer.jobs w))))).
Proof.
  intros Hplain Hfuel.
  replace fuel
    with (S (resumptions (Renderer.jobs w)
             + (fuel - S (resumptions (Renderer.jobs w))))) by lia.
  now apply process_jobs_scripted_all.
Qed.
End ScriptedJobs.

(** The reference store never refuses what the scripted jobs need. *)
Lemma Reference_add_total (st : Reference.store) (var : Reference.variable) :
  exists st', Reference.add st var true = Ok st'.
Proof.
  unfold Reference.add. destruct (Reference.value_of var); [|eauto].
  destruct (Dict.get _ _); [|eauto].
  destruct (Reference.value_eqb _ _); eauto.
Qed.

Lemma Reference_created_total (st : Reference.store) (file : string) :
  exists st', Reference.created st file = Ok st'.
Proof. unfold Reference.created. eauto. Qed.

Lemma Reference_variables_total (b : value) (src : string) :
  snd (Reference.variables_from_block b src) = None.
Proof.
  unfold Reference.variables_from_block.
  destruct b; try reflexivity.
  destruct (Dict.get "variable" d) as [[]|]; reflexivity.
Qed.

Lemma process_jobs_scripted_witness :
  exists st',
    process_jobs (E := Demo.E) send_script 10 None
      (Demo.world_of [Demo.finished_job; Demo.iam_job]) =
    Some (Return tt
            (Renderer.Make st' []
               [finish_job Demo.iam_job; finish_job Demo.finished_job])).
Proof.
  apply (process_jobs_scripted (E := Demo.E)
           Reference_add_total Reference_created_total
           Reference_variables_total
           (Demo.world_of [Demo.finished_job; Demo.iam_job]) (fuel := 10)).
  - repeat constructor.
  - vm_compute. lia.
Defined.

(** ** A whole render over scripted producers *)

Section ScriptedRender.
Context {E : Externals}.
Hypothesis store_add_total :
  forall st var, exists st', store_add st var true = Ok st'.
Hypothesis file_created_total :
  forall st file, exists st', file_created st file = Ok st'.
Hypothesis get_variables_total :
  forall b src, snd (get_variables_from_block b src) = None.

Implicit Types (j : job (list value)) (js : list (job (list value))).

Lemma contents_plain (G : Type) (j : RenderJob.t G) :
  Str.endswith (RenderJob.output_name j) ".tfvars.json" = false ->
  RenderJob_contents j = Ok (VList (RenderJob.blocks j)).
Proof. unfold RenderJob_contents. now intros ->. Qed.

Lemma render_results_plain js : forall (acc : dict),
  Forall (fun j => Str.endswith (RenderJob.output_name j) ".tfvars.json" = false)
    js ->
  exists results,
    fold_left
      (fun acc j =>
         results <- acc ;;
         contents <- RenderJob_contents j ;;
         Ok (Dict.set (RenderJob.output_path j) contents results))
      js (Ok acc) = Ok results.
Proof.
  induction js as [|j rest IH]; simpl; intros acc Hall; [eauto|].
  inversion Hall; subst. rewrite contents_plain by assumption. simpl.
  now apply IH.
Qed.

Lemma last_contents_other js (p : string) :
  ~ In p (map (@RenderJob.output_path (list value)) js) ->
  forall found,
    fold_left
      (fun found j0 =>
         if String.eqb p (RenderJob.output_path j0) then
           match RenderJob_contents j0 with
           | Ok c0 => Some c0
           | Raise _ => found
           end
         else found)
      js found = found.
Proof.
  induction js as [|b rest IH]; simpl; intros Hnotin found; [reflexivity|].
  destruct (String.eqb_spec p (RenderJob.output_path b)) as [Heq|Hne].
  - exfalso. apply Hnotin. left. now symmetry.
  - apply IH. intros H. apply Hnotin. now right.
Qed.

Lemma last_contents_unique js (p : string) (c : value) j :
  NoDup (map (@RenderJob.output_path (list value)) js) ->
  In j js ->
  RenderJob.output_path j = p ->
  RenderJob_contents j = Ok c ->
  forall found,
    fold_left
      (fun found j0 =>
         if String.eqb p (RenderJob.output_path j0) then
           match RenderJob_contents j0 with
           | Ok c0 => Some c0
           | Raise _ => found
           end
         else found)
      js found = Some c.
Proof.
  intros Hnd Hin Hp Hc.
  induction js as [|a rest IH]; simpl; intros found; [contradiction|].
  inversion Hnd as [|? ? Hnotin Hrest]; subst.
  destruct Hin as [->|Hin].
  - rewrite String.eqb_refl, Hc. now apply last_contents_other.
  - now apply IH.
Qed.

Lemma finish_job_paths js :
  map (@RenderJob.output_path (list value)) (rev (map finish_job js)) =
  rev (map (@RenderJob.output_path (list value)) js).
Proof.
  rewrite <- map_rev, map_map, map_rev. reflexivity.
Qed.

(** X18: a render of definition files whose producers yield fixed values,
    no two files with the same output path, returns with no job pending
    and with one result for each file: the list of the blocks collected
    before followed by all the blocks its values unwrap to, in order. *)
Theorem render_scripted (w : renderer (list value)) (fuel : nat) :
  Renderer.done w = [] ->
  Forall plain_job (Renderer.jobs w) ->
  NoDup (map (@RenderJob.output_path (list value)) (Renderer.jobs w)) ->
  resumptions (Renderer.jobs w) < fuel ->
  exists results w',
    render send_script fuel w = Some (Return results w')
    /\ Renderer.jobs w' = []
    /\ (forall p, In p (Dict.keys results) <->
                  In p (map (@RenderJob.output_path (list value))
                          (Renderer.jobs w)))
    /\ forall j, In j (Renderer.jobs w) ->
         Dict.get (RenderJob.output_path j) results =
         Some (VList (RenderJob.blocks j ++ unwrapped (RenderJob.gen j))).
Proof.
  intros Hdone Hplain Hnd Hfuel.
  destruct (process_jobs_scripted_all store_add_total file_created_total
              get_variables_total w (fuel - S (resumptions (Renderer.jobs w)))
              eq_refl Hplain) as (st' & Hrun).
  replace (S (resumptions (Renderer.jobs w)
              + (fuel - S (resumptions (Renderer.jobs w)))))
    with fuel in Hrun by lia.
  rewrite Hdone in Hrun. simpl in Hrun.
  assert (Hall : Forall
            (fun j => Str.endswith (RenderJob.output_name j) ".tfvars.json" = false)
            (rev (map finish_job (Renderer.jobs w)))).
  { apply Forall_rev, Forall_map.
    eapply Forall_impl; [|exact Hplain]. intros j [Htf _]. exact Htf. }
  destruct (render_results_plain [] Hall) as (results & Hres).
  destruct (render_results_from _ _ Hres) as (_ & Hget & Hkeys).
  exists results, (Renderer.Make st' [] (rev (map finish_job (Renderer.jobs w)))).
  assert (Hrr : render_results (rev (map finish_job (Renderer.jobs w))) =
                Ok results) by exact Hres.
  unfold render. rewrite Hrun. cbn [Renderer.done]. rewrite Hrr.
  repeat split.
  - intros H. apply Hkeys in H. destruct H as [[]|H].
    rewrite finish_job_paths in H. exact (proj2 (in_rev _ _) H).
  - intros H. apply Hkeys. right. rewrite finish_job_paths.
    exact (proj1 (in_rev _ _) H).
  - intros j Hj. rewrite Hget.
    eapply last_contents_unique with (j := finish_job j).
    + rewrite finish_job_paths. now apply NoDup_rev.
    + apply (proj1 (in_rev _ _)). now apply in_map.
    + reflexivity.
    + apply contents_plain. simpl.
      rewrite Forall_forall in Hplain. now destruct (Hplain j Hj).
Qed.
End ScriptedRender.

Lemma render_scripted_witness :
  exists results w',
    render (E := Demo.E) send_script 10
      (Demo.world_of [Demo.finished_job; Demo.iam_job]) =
      Some (Return results w')
    /\ Dict.get "iam.tf.json" results =
       Some (VList
               [VDict [("variable", VDict [("path", VDict [("default", VStr "/")])])];
                VDict [("resource", VDict [("aws_iam_user",
                         VDict [("peanut", VDict [("name", VStr "peanut")])])])]])
    /\ Dict.get "empty.tf.json" results = Some (VList []).
Proof.
  destruct (render_scripted (E := Demo.E)
              Reference_add_total Reference_created_total
              Reference_variables_total
              (Demo.world_of [Demo.finished_job; Demo.iam_job]) (fuel := 10))
    as (results & w' & Hrender & _ & _ & Hget).
  - reflexivity.
  - repeat constructor.
  - simpl. repeat constructor; simpl; intuition discriminate.
  - vm_compute. lia.
  - exists results, w'. split; [exact Hrender|]. split.
    + apply (Hget Demo.iam_job). simpl. auto.
    + apply (Hget Demo.finished_job). simpl. auto.
Defined.

(** ** References and flattened blocks together *)

(** X19: the reference to an attribute of a resource block points into
    the mapping the block flattens to: its segments without the attribute
    name, after [resource], lead from the flattened mapping down to the
    body of the block. *)
Theorem reference_points_at_block (path : string) (body : dict) (name : string) :
  Dict.wf body ->
  first_segment path = "resource" ->
  Str.contains Str.dot name = false ->
  exists v items,
    Block_getattr path body name = Ok (VInterp v)
    /\ Block_iter path body = Some items
    /\ descend ("resource" :: removelast (Str.split Str.dot v)) (VDict items) =
       Some (VDict body).
Proof.
  intros Hwf Hfirst Hname.
  assert (Hp : first_segment path <> "provider") by (rewrite Hfirst; discriminate).
  pose proof (Block_getattr_not_provider path body name Hp) as Hattr.
  pose proof (Block_iter_wf path Hwf) as Hiter.
  pose proof (StrMore.split_segments Str.dot path) as Hsegs.
  unfold first_segment in Hfirst.
  destruct (Str.split Str.dot path) as [|p0 rest] eqn:Hs.
  - exfalso. exact (StrFacts.split_not_nil _ _ Hs).
  - simpl in Hfirst. subst p0. simpl in Hattr.
    destruct (Block_iter path body) as [items|]; simpl in Hiter; [|discriminate].
    inversion Hiter as [Hitems]. clear Hiter.
    exists (Str.join "." (rest ++ [name])). eexists.
    split; [exact Hattr|]. split; [reflexivity|].
    change "." with (String Str.dot "").
    rewrite StrMore.split_join.
    + rewrite removelast_last.
      exact (descend_nested_mapping ("resource" :: rest) body).
    + destruct rest; discriminate.
    + apply Forall_app. split; [now inversion Hsegs|now repeat constructor].
Qed.

Lemma reference_points_at_block_witness :
  exists v items,
    Block_getattr "resource.aws_iam_user.peanut" [("name", VStr "peanut")] "arn" =
      Ok (VInterp v)
    /\ Block_iter "resource.aws_iam_user.peanut" [("name", VStr "peanut")] =
       Some items
    /\ descend ("resource" :: removelast (Str.split Str.dot v)) (VDict items) =
       Some (VDict [("name", VStr "peanut")]).
Proof.
  apply (reference_points_at_block "resource.aws_iam_user.peanut"
           (body := [("name", VStr "peanut")]) "arn").
  - unfold Dict.wf. simpl. repeat constructor. simpl. tauto.
  - reflexivity.
  - reflexivity.
Defined.

(** ** The attributes of a built collection *)

Lemma assign_items_last (k : string) (d : dict) : forall m,
  Dict.get k (assign_items m d) =
  fold_left
    (fun found kv => if String.eqb k (fst kv) then Some (snd kv) else found)
    d (Dict.get k m).
Proof.
  unfold assign_items.
  induction d as [|[k0 v0] rest IH]; simpl; intros m; [reflexivity|].
  rewrite IH. f_equal.
  destruct (String.eqb_spec k k0) as [->|Hne].
  - apply DictFacts.get_set_same.
  - now apply DictFacts.get_set_other.
Qed.

Lemma Collection_getattr_get (outs : dict) (name : string) :
  Collection_getattr outs name =
  match Dict.get name outs with
  | Some v => Ok v
  | None => Raise (AttributeError ("output not defined: " ++ name))
  end.
Proof.
  unfold Collection_getattr.
  pose proof (dict_contains_get name outs) as Hc.
  destruct (Dict.get name outs) as [v|] eqn:Hget.
  - assert (Htrue : dict_contains name outs = true)
      by (apply Hc; discriminate).
    now rewrite Htrue.
  - destruct (dict_contains name outs); [|reflexivity].
    exfalso. now apply Hc.
Qed.

Section CollectionAttributes.
Context {E : Externals}.
Variable G : Type.
Variable send : G -> value -> store -> sent G store.

Lemma recorded_outputs_last (k : string) (bs : list value) : forall outs,
  Dict.get k (recorded_outputs bs outs) =
  fold_left
    (fun found kv => if String.eqb k (fst kv) then Some (snd kv) else found)
    (emitted_outputs bs) (Dict.get k outs).
Proof.
  unfold recorded_outputs, emitted_outputs.
  induction bs as [|b rest IH]; simpl; intros outs; [reflexivity|].
  rewrite IH, fold_left_app. f_equal. apply assign_items_last.
Qed.

(** X20: an attribute of a Collection built by [collect] is the value of
    the last output of that name among the outputs the producer emitted;
    a name that no emitted block gave as an output raises [output not
    defined].  The outputs of a nested Collection are not among them
    unless the producer emits them again. *)
Theorem collect_attribute_last_output (fuel : nat) (func_name : string)
  (g0 : G) (kwargs : dict) (bs : list value) (outs : dict) :
  collect send fuel func_name g0 kwargs = Some (Ok (VColl bs outs)) ->
  exists st0 g' c',
    load_kwargs kwargs VariableStore_new = Return tt st0
    /\ collect_loop (send_logged send) fuel func_name (start_logged g0) VNone
         (Collecting.Make st0 [] []) = Some (Return tt (g', c'))
    /\ forall name,
         Collection_getattr outs name =
         match last_binding name (emitted_outputs (unwrapped (yielded_log g'))) with
         | Some v => Ok v
         | None => Raise (AttributeError ("output not defined: " ++ name))
         end.
Proof.
  intros Hcollect.
  destruct (collect_built _ _ _ _ _ Hcollect)
    as (st0 & g' & c' & Hload & Hloop & _ & ->).
  destruct (collect_loop_outputs _ _ _ _ _ _ Hloop) as (ys & Hys & Houts).
  simpl in Hys, Houts. subst ys.
  exists st0, g', c'. repeat split; try assumption.
  intros name. rewrite Collection_getattr_get, Houts, recorded_outputs_last.
  reflexivity.
Qed.
End CollectionAttributes.

Lemma collect_attribute_last_output_witness :
  collect (E := Demo.E) send_script 10 "group" Demo.nested_yields [] =
    Some (Ok (VColl [Demo.user_block "peanut"; Demo.user_block "cornelius";
                     Demo.user_block "walnut"; Demo.group_block]
                [("group", VStr "dogs")]))
  /\ Collection_getattr [("group", VStr "dogs")] "group" = Ok (VStr "dogs")
  /\ Collection_getattr [("group", VStr "dogs")] "name" =
     Raise (AttributeError "output not defined: name").
Proof.
  assert (Hrun : collect (E := Demo.E) send_script 10 "group"
                   Demo.nested_yields [] =
                 Some (Ok (VColl [Demo.user_block "peanut";
                                  Demo.user_block "cornelius";
                                  Demo.user_block "walnut"; Demo.group_block]
                             [("group", VStr "dogs")])))
    by (vm_compute; reflexivity).
  split; [exact Hrun|].
  destruct (collect_attribute_last_output (E := Demo.E) send_script 10 "group"
              Demo.nested_yields [] Hrun)
    as (st0 & g' & c' & Hload & Hloop & Hattr).
  vm_compute in Hload. inversion Hload; subst st0.
  vm_compute in Hloop. inversion Hloop; subst g' c'.
  split; rewrite Hattr; vm_compute; reflexivity.
Defined.
